(** * Wind: a polling file watcher that rebuilds and restarts a Go program

    A shallow embedding of [main.go] (package [main] of rodrigoherera/wind)
    and the properties of its watch/build/run core.

    Conventions of the embedding:
    - a [time.Time] modification time is an integer (an instant on the
      time line); [modTime.After(lastMod)] is [lastMod < modTime];
    - [map[string]time.Time] is a [gmap string Z];
    - the file tree that [filepath.Walk] reads is an explicit value
      ([fsnode]), including the entries on which [Lstat] or the directory
      read fails;
    - what the program prints and the system calls it makes are recorded
      in a trace of [Effect]s; the outcomes of system calls are inputs. *)

From Stdlib Require Import ZArith String Ascii List Bool Lia.
From stdpp Require Import base gmap strings list fin_maps.
Import ListNotations.

Local Open Scope string_scope.
Local Open Scope list_scope.
Local Open Scope Z_scope.

(** ** Go library functions used by [main.go] *)

Module GoLib.

(** [strings.HasPrefix(s, prefix)]. *)
Fixpoint HasPrefix (s pre : string) {struct pre} : bool :=
  match pre with
  | EmptyString => true
  | String a pre' =>
      match s with
      | EmptyString => false
      | String b s' => if Ascii.eqb a b then HasPrefix s' pre' else false
      end
  end.

(** [strings.Contains(s, substr)]: [substr] occurs somewhere in [s]. *)
Fixpoint Contains (s substr : string) : bool :=
  HasPrefix s substr ||
  match s with
  | EmptyString => false
  | String _ s' => Contains s' substr
  end.

Definition dot : ascii := "."%char.
Definition slash : ascii := "/"%char.

(** The loop of [filepath.Ext]: [i] runs from the last byte down to the
    first, stops with the empty string at a path separator and with
    [path[i:]] at a dot.  [before] is [path[:i+1]] reversed and [acc] is
    [path[i+1:]]. *)
Fixpoint ext_loop (before : list ascii) (acc : string) : string :=
  match before with
  | [] => ""
  | c :: before' =>
      if Ascii.eqb c slash then ""
      else if Ascii.eqb c dot then String c acc
      else ext_loop before' (String c acc)
  end.

Definition Ext (path : string) : string :=
  ext_loop (rev (list_ascii_of_string path)) "".

(** [filepath.Join(dir, name)] at the arguments [filepath.Walk] gives it:
    [dir] is ["."] or an already joined path and [name] is the name of a
    directory entry, so cleaning the joined path only removes a leading
    ["./"]. *)
Definition Join (dir name : string) : string :=
  if String.eqb dir "." then name else dir +:+ "/" +:+ name.

End GoLib.
Import GoLib.

(** ** The file tree read by [filepath.Walk] *)

(** A Go [error] value, identified by its message. *)
Definition error := string.

(** What [Lstat] and the directory read return for one path: a
    non-directory with its modification time, a directory with its entries
    in the order [readDirNames] lists them (sorted by name), a directory
    whose entries cannot be read, or a path on which [Lstat] fails.  The
    modification time of a directory is never read by the program. *)
#[local] Unset Elimination Schemes.
Inductive fsnode : Type :=
| File (mtime : Z)
| Dir (entries : list (string * fsnode))
| DirUnreadable (e : error)
| Broken (e : error).
#[local] Set Elimination Schemes.

(** [os.FileInfo], as far as the program reads it. *)
Record FileInfo := mkInfo { IsDir : bool; ModTime : Z }.

(** The value a [filepath.WalkFunc] returns: [nil], [filepath.SkipDir] or
    another error.  ([filepath.SkipAll] is never returned by this
    program.) *)
Inductive WalkResult :=
| RNil
| RSkipDir
| RErr (e : error).

(** The [info] and [err] arguments of a [filepath.WalkFunc]: either the
    entry's [FileInfo] with the error of reading the directory, if any, or
    a nil [info] with the error of the failed [Lstat]. *)
Inductive WalkArg :=
| Visit (info : FileInfo) (err : option error)
| LstatFailed (err : error).

Definition WalkFunc (S : Type) : Type :=
  string -> WalkArg -> S -> S * WalkResult.

Section Walk.
Context {S : Type} (fn : WalkFunc S).

(** [filepath.walk], together with the [lstat] its caller does on the
    entry: a failing [lstat] hands the error to [fn]; a non-directory is
    handed to [fn]; a directory is read, handed to [fn] with the read
    error if any, and then walked entry by entry unless the read failed
    or [fn] returned non-nil. *)
Fixpoint walk (path : string) (n : fsnode) (s : S) : S * WalkResult :=
  match n with
  | Broken e => fn path (LstatFailed e) s
  | File t => fn path (Visit (mkInfo false t) None) s
  | DirUnreadable e => fn path (Visit (mkInfo true 0) (Some e)) s
  | Dir entries =>
      let '(s1, r1) := fn path (Visit (mkInfo true 0) None) s in
      match r1 with
      | RNil =>
          (fix walk_entries (l : list (string * fsnode)) (s : S)
             : S * WalkResult :=
             match l with
             | [] => (s, RNil)
             | (name, c) :: l' =>
                 let '(s', r) := walk (Join path name) c s in
                 match r with
                 | RNil => walk_entries l' s'
                 | RSkipDir =>
                     match c with
                     | Dir _ | DirUnreadable _ | Broken _ => walk_entries l' s'
                     | File _ => (s', RSkipDir)
                     end
                 | RErr e => (s', RErr e)
                 end
             end) entries s1
      | _ => (s1, r1)
      end
  end.

(** [filepath.Walk(".", fn)] on the tree [root]: [SkipDir] from the root
    is not an error. *)
Definition Walk (root : fsnode) (s : S) : S * option error :=
  let '(s', r) := walk "." root s in
  match r with
  | RErr e => (s', Some e)
  | _ => (s', None)
  end.
End Walk.

(** ** The watcher's state *)

Record WindConfig := mkConfig {
  BuildCmd : string;
  RunCmd : string;
  ExcludeDirs : list string;
  IncludeExts : list string;
  PollInterval : Z;
  DebounceDelay : Z
}.

(** [WindApp].  [process] is the pid of the child process or [None] for
    nil; [mutex] is [true] while the mutex is held.  [stopChan] has no
    field: closing it is the [EvStop] event of the watch loop. *)
Record WindApp := mkApp {
  config : WindConfig;
  process : option Z;
  building : bool;
  mutex : bool;
  fileStates : gmap string Z
}.

Definition set_fileStates (app : WindApp) (m : gmap string Z) : WindApp :=
  mkApp (config app) (process app) (building app) (mutex app) m.
Definition set_building (app : WindApp) (b : bool) : WindApp :=
  mkApp (config app) (process app) b (mutex app) (fileStates app).
Definition set_process (app : WindApp) (p : option Z) : WindApp :=
  mkApp (config app) p (building app) (mutex app) (fileStates app).
Definition set_mutex (app : WindApp) (b : bool) : WindApp :=
  mkApp (config app) (process app) (building app) b (fileStates app).

(** What the program prints and the system calls it makes. *)
Inductive Effect :=
| PrintFileChanged (path : string)
| PrintScanFailed (e : error)
| PrintStopping (pid : Z)
| PrintBuilding
| PrintBuildFailed (e : error)
| PrintBuildSuccessful
| PrintStarting
| PrintStartFailed (e : error)
| PrintStarted (pid : Z)
| SignalTERM (pid : Z)
| Kill (pid : Z)
| Wait (pid : Z)
| RunBuild (cmd : string)
| StartRun (cmd : string)
| Remove (path : string).

(** ** Scanning *)

(** [shouldWatch]. *)
Definition shouldWatch (cfg : WindConfig) (filename : string) : bool :=
  let ext := Ext filename in
  existsb (fun includeExt => String.eqb ext includeExt) (IncludeExts cfg).

(** The loop over [ExcludeDirs] in both walk functions: some fragment is
    a substring of [path]. *)
Definition excluded (cfg : WindConfig) (path : string) : bool :=
  existsb (fun exclude => Contains path exclude) (ExcludeDirs cfg).

(** The function literal of [scanFiles]. *)
Definition scanFilesFn : WalkFunc WindApp :=
  fun path arg app =>
    match arg with
    | LstatFailed err => (app, RErr err)
    | Visit _ (Some err) => (app, RErr err)
    | Visit info None =>
        if excluded (config app) path then
          (app, if IsDir info then RSkipDir else RNil)
        else if negb (IsDir info) && shouldWatch (config app) path then
          (set_fileStates app (<[path := ModTime info]> (fileStates app)), RNil)
        else (app, RNil)
    end.

Definition scanFiles (root : fsnode) (app : WindApp) : WindApp * option error :=
  Walk scanFilesFn root app.

(** The function literal of [checkForChanges]; its state is the
    application, the captured variable [changed] and the output. *)
Definition checkForChangesFn : WalkFunc (WindApp * bool * list Effect) :=
  fun path arg '(app, changed, out) =>
    match arg with
    | LstatFailed err => (app, changed, out, RErr err)
    | Visit _ (Some err) => (app, changed, out, RErr err)
    | Visit info None =>
        if excluded (config app) path then
          (app, changed, out, if IsDir info then RSkipDir else RNil)
        else if negb (IsDir info) && shouldWatch (config app) path then
          let modTime := ModTime info in
          match fileStates app !! path with
          | None =>
              (set_fileStates app (<[path := modTime]> (fileStates app)),
               changed, out, RNil)
          | Some lastMod =>
              if lastMod <? modTime then
                (set_fileStates app (<[path := modTime]> (fileStates app)),
                 true, out ++ [PrintFileChanged path], RNil)
              else (app, changed, out, RNil)
          end
        else (app, changed, out, RNil)
    end.

(** [checkForChanges]: the new state, what was printed, and the result. *)
Definition checkForChanges (root : fsnode) (app : WindApp)
  : WindApp * list Effect * bool :=
  let '(app', changed, out, err) := Walk checkForChangesFn root (app, false, []) in
  match err with
  | Some e => (app', out ++ [PrintScanFailed e], changed)
  | None => (app', out, changed)
  end.

(** The configuration [runWatcher] builds around the detected build
    command; durations are in milliseconds. *)
Definition defaultConfig (buildCmd : string) : WindConfig :=
  mkConfig buildCmd "./tmp/main"
    ["vendor"; ".git"; "node_modules"; "tmp"; ".idea"; ".vscode"]
    [".go"; ".html"; ".css"; ".js"; ".json"; ".yaml"; ".yml"]
    500 300.

Definition newApp (cfg : WindConfig) : WindApp := mkApp cfg None false false ∅.

(** ** The walk both scans perform *)

(** Both function literals have the same shape: give up on a walk error,
    skip what is excluded, and hand every other non-directory that
    [shouldWatch] accepts to an update of the state.  [indexFn] is that
    shape with the update left open. *)
Definition indexFn {S : Type} (cfg : WindConfig) (upd : string -> Z -> S -> S)
  : WalkFunc S :=
  fun path arg s =>
    match arg with
    | LstatFailed err => (s, RErr err)
    | Visit _ (Some err) => (s, RErr err)
    | Visit info None =>
        if excluded cfg path then (s, if IsDir info then RSkipDir else RNil)
        else if negb (IsDir info) && shouldWatch cfg path then
          (upd path (ModTime info) s, RNil)
        else (s, RNil)
    end.

(** The update of [scanFiles]: store the modification time. *)
Definition scanUpd (path : string) (modTime : Z) (app : WindApp) : WindApp :=
  set_fileStates app (<[path := modTime]> (fileStates app)).

(** The update of [checkForChanges]: insert on first sight, replace and
    report when the stored time is older, otherwise nothing. *)
Definition checkUpd (path : string) (modTime : Z)
  (st : WindApp * bool * list Effect) : WindApp * bool * list Effect :=
  let '(app, changed, out) := st in
  match fileStates app !! path with
  | None => (set_fileStates app (<[path := modTime]> (fileStates app)), changed, out)
  | Some lastMod =>
      if lastMod <? modTime then
        (set_fileStates app (<[path := modTime]> (fileStates app)),
         true, out ++ [PrintFileChanged path])
      else st
  end.

(** The named form of the loop over the entries of a directory. *)
Fixpoint walk_entries {S : Type} (fn : WalkFunc S) (path : string)
  (l : list (string * fsnode)) (s : S) : S * WalkResult :=
  match l with
  | [] => (s, RNil)
  | (name, c) :: l' =>
      let '(s', r) := walk fn (Join path name) c s in
      match r with
      | RNil => walk_entries fn path l' s'
      | RSkipDir =>
          match c with
          | Dir _ | DirUnreadable _ | Broken _ => walk_entries fn path l' s'
          | File _ => (s', RSkipDir)
          end
      | RErr e => (s', RErr e)
      end
  end.

(** The files that a walk with configuration [cfg] hands to the update, in
    the order of the walk, and the result of the walk: it stops at the
    first entry it cannot [Lstat] or read, unless that entry lies in a
    skipped directory. *)
Fixpoint visited (cfg : WindConfig) (path : string) (n : fsnode)
  : list (string * Z) * WalkResult :=
  match n with
  | Broken e => ([], RErr e)
  | DirUnreadable e => ([], RErr e)
  | File t =>
      if excluded cfg path then ([], RNil)
      else if shouldWatch cfg path then ([(path, t)], RNil) else ([], RNil)
  | Dir entries =>
      if excluded cfg path then ([], RSkipDir)
      else
        (fix visited_entries (l : list (string * fsnode))
           : list (string * Z) * WalkResult :=
           match l with
           | [] => ([], RNil)
           | (name, c) :: l' =>
               let '(v, r) := visited cfg (Join path name) c in
               match r with
               | RErr e => (v, RErr e)
               | _ => let '(v', r') := visited_entries l' in (v ++ v', r')
               end
           end) entries
  end.

Fixpoint visited_entries (cfg : WindConfig) (path : string)
  (l : list (string * fsnode)) : list (string * Z) * WalkResult :=
  match l with
  | [] => ([], RNil)
  | (name, c) :: l' =>
      let '(v, r) := visited cfg (Join path name) c in
      match r with
      | RErr e => (v, RErr e)
      | _ => let '(v', r') := visited_entries cfg path l' in (v ++ v', r')
      end
  end.

(** The error of a walk over [root], if it fails. *)
Definition walkError (cfg : WindConfig) (root : fsnode) : option error :=
  match (visited cfg "." root).2 with
  | RErr e => Some e
  | _ => None
  end.

(** ** Every file of a tree, and which of them are watched *)

(** All non-directories of a tree with their paths relative to the root,
    whatever the configuration. *)
Fixpoint all_files (path : string) (n : fsnode) : list (string * Z) :=
  match n with
  | File t => [(path, t)]
  | Dir entries =>
      flat_map (fun e : string * fsnode => all_files (Join path e.1) e.2) entries
  | DirUnreadable _ | Broken _ => []
  end.

(** An eligible file: no excluded fragment in its path and an included
    extension. *)
Definition eligible (cfg : WindConfig) (path : string) : bool :=
  negb (excluded cfg path) && shouldWatch cfg path.

(** Names of directory entries, as a file system has them: not empty, not
    ["."], without a separator, and no name twice in one directory. *)
Definition valid_name (name : string) : bool :=
  negb (String.eqb name "") && negb (String.eqb name ".") &&
  forallb (fun c => negb (Ascii.eqb c slash)) (list_ascii_of_string name).

Fixpoint distinct (l : list string) : bool :=
  match l with
  | [] => true
  | x :: l' => negb (existsb (String.eqb x) l') && distinct l'
  end.

Fixpoint wf_tree (n : fsnode) : bool :=
  match n with
  | Dir entries =>
      forallb valid_name (map fst entries) && distinct (map fst entries) &&
      forallb (fun e : string * fsnode => wf_tree e.2) entries
  | _ => true
  end.

(** The fold of an update over a list of files with their times. *)
Definition applyAll {S : Type} (upd : string -> Z -> S -> S)
  (l : list (string * Z)) (s : S) : S :=
  fold_left (fun s x => upd x.1 x.2 s) l s.

(** A visited file has advanced with respect to the index [m]: it is a key
    of [m] and its time is strictly after the stored one. *)
Definition advanced (m : gmap string Z) (x : string * Z) : bool :=
  match m !! x.1 with
  | Some lastMod => lastMod <? x.2
  | None => false
  end.

(** The entry [checkForChanges] leaves for a file with time [t]. *)
Definition merged (old : option Z) (t : Z) : Z :=
  match old with
  | None => t
  | Some lastMod => if lastMod <? t then t else lastMod
  end.

(** A path lies at or below [dir] when it is [dir] followed by nothing or
    by a separator and more. *)
Definition tail_ok (r : string) : Prop := r = "" \/ exists r', r = String slash r'.
Definition below (dir p : string) : Prop := exists r, tail_ok r /\ p = dir +:+ r.

Definition slashfree (s : string) : bool :=
  forallb (fun c => negb (Ascii.eqb c slash)) (list_ascii_of_string s).

(** The part of a tree that a walk reaches before it fails: the tree cut
    off at the first entry that cannot be [Lstat]ed or read (which is
    replaced by an empty directory), with everything after it in walk order
    removed; directories the walk skips are kept whole.  The flag tells
    whether anything was cut. *)
Fixpoint cut (cfg : WindConfig) (path : string) (n : fsnode) : fsnode * bool :=
  match n with
  | File t => (File t, false)
  | Broken _ | DirUnreadable _ => (Dir [], true)
  | Dir entries =>
      if excluded cfg path then (Dir entries, false)
      else
        let '(entries', failed) :=
          (fix cut_entries (l : list (string * fsnode))
             : list (string * fsnode) * bool :=
             match l with
             | [] => ([], false)
             | (name, c) :: l' =>
                 let '(c', failed) := cut cfg (Join path name) c in
                 if failed then ([(name, c')], true)
                 else let '(l'', failed') := cut_entries l' in
                      ((name, c') :: l'', failed')
             end) entries in
        (Dir entries', failed)
  end.

Fixpoint cut_entries (cfg : WindConfig) (path : string)
  (l : list (string * fsnode)) : list (string * fsnode) * bool :=
  match l with
  | [] => ([], false)
  | (name, c) :: l' =>
      let '(c', failed) := cut cfg (Join path name) c in
      if failed then ([(name, c')], true)
      else let '(l'', failed') := cut_entries cfg path l' in
           ((name, c') :: l'', failed')
  end.

(** ** Stopping, building and starting the child process *)

(** [stopProcess].  [signalErr] is what [Signal(SIGTERM)] returns; the
    results of [Kill] and [Wait] are not looked at by the program. *)
Definition stopProcess (signalErr : option error) (app : WindApp)
  : WindApp * list Effect :=
  match process app with
  | Some pid =>
      (set_process app None,
       [PrintStopping pid; SignalTERM pid]
       ++ match signalErr with
          | Some _ => [Kill pid]
          | None => []
          end
       ++ [Wait pid])
  | None => (app, [])
  end.

(** What the system calls of one build-and-run cycle return: the error of
    [Signal(SIGTERM)], the error of [buildCmd.Run()], and from
    [runCmd.Start()] an error or the pid of the started process. *)
Record CycleOutcome := mkOutcome {
  signalErr : option error;
  buildErr : option error;
  startRes : error + Z
}.

(** The body of [buildAndRun] between [Lock] and the deferred [Unlock]. *)
Definition buildAndRunLocked (o : CycleOutcome) (app : WindApp)
  : WindApp * list Effect :=
  if building app then (app, [])
  else
    let app := set_building app true in
    let '(app, stopped) := stopProcess (signalErr o) app in
    let build := [PrintBuilding; RunBuild (BuildCmd (config app))] in
    match buildErr o with
    | Some err =>
        (set_building app false, stopped ++ build ++ [PrintBuildFailed err])
    | None =>
        let start := [PrintBuildSuccessful; PrintStarting; StartRun (RunCmd (config app))] in
        match startRes o with
        | inl err =>
            (set_building app false,
             stopped ++ build ++ start ++ [PrintStartFailed err])
        | inr pid =>
            (set_building (set_process app (Some pid)) false,
             stopped ++ build ++ start ++ [PrintStarted pid])
        end
    end.

(** [buildAndRun] called while no other goroutine is inside it; [None]
    when the mutex is held, where [Lock] does not return. *)
Definition buildAndRun (o : CycleOutcome) (app : WindApp)
  : option (WindApp * list Effect) :=
  if mutex app then None
  else
    let '(app', tr) := buildAndRunLocked o (set_mutex app true) in
    Some (set_mutex app' false, tr).

(** [cleanup]; [binaryExists] tells whether [os.Stat("tmp/main")]
    succeeds. *)
Definition cleanupPath : string := "tmp/main".

Definition cleanup (signalErr : option error) (binaryExists : bool) (app : WindApp)
  : WindApp * list Effect :=
  let '(app', tr) := stopProcess signalErr app in
  (app', tr ++ if binaryExists then [Remove cleanupPath] else []).

(** The number of builds a trace contains. *)
Definition is_build (e : Effect) : bool :=
  match e with
  | RunBuild _ => true
  | _ => false
  end.

Definition builds (tr : list Effect) : nat := length (List.filter is_build tr).

(** ** Goroutines calling [buildAndRun] at the same time *)

(** Where a goroutine is inside [buildAndRun]: before [Lock], holding the
    mutex before the test of [building], before [stopProcess], before the
    build, before the start of the program, or returned. *)
Inductive Pc := AtLock | AtCheck | AtStop | AtBuild | AtStart | Returned.

(** One step of a goroutine on the shared [WindApp]; [None] when it cannot
    move: [Lock] on a held mutex blocks, and a returned call is over.
    Every return runs the deferred [Unlock]. *)
Definition step (o : CycleOutcome) (pc : Pc) (app : WindApp)
  : option (Pc * WindApp * list Effect) :=
  match pc with
  | AtLock => if mutex app then None else Some (AtCheck, set_mutex app true, [])
  | AtCheck =>
      if building app then Some (Returned, set_mutex app false, [])
      else Some (AtStop, set_building app true, [])
  | AtStop =>
      let '(app', tr) := stopProcess (signalErr o) app in
      Some (AtBuild, app', tr)
  | AtBuild =>
      let build := [PrintBuilding; RunBuild (BuildCmd (config app))] in
      match buildErr o with
      | Some err =>
          Some (Returned, set_mutex (set_building app false) false,
                build ++ [PrintBuildFailed err])
      | None => Some (AtStart, app, build)
      end
  | AtStart =>
      let start := [PrintBuildSuccessful; PrintStarting; StartRun (RunCmd (config app))] in
      match startRes o with
      | inl err =>
          Some (Returned, set_mutex (set_building app false) false,
                start ++ [PrintStartFailed err])
      | inr pid =>
          Some (Returned,
                set_mutex (set_building (set_process app (Some pid)) false) false,
                start ++ [PrintStarted pid])
      end
  | Returned => None
  end.

Record System := mkSystem {
  shared : WindApp;
  trace : list Effect;
  goroutines : list (Pc * CycleOutcome)
}.

(** The scheduler lets goroutine [i] move; nothing happens when it cannot. *)
Definition sched (i : nat) (sys : System) : System :=
  match goroutines sys !! i with
  | Some (pc, o) =>
      match step o pc (shared sys) with
      | Some (pc', app', tr) =>
          mkSystem app' (trace sys ++ tr) (<[i := (pc', o)]> (goroutines sys))
      | None => sys
      end
  | None => sys
  end.

Definition run (schedule : list nat) (sys : System) : System :=
  fold_left (fun sys i => sched i sys) schedule sys.

(** One goroutine per outcome, each about to call [buildAndRun]. *)
Definition spawn (outcomes : list CycleOutcome) (app : WindApp) : System :=
  mkSystem app [] (map (fun o => (AtLock, o)) outcomes).

Definition count_pc (f : Pc -> bool) (gs : list (Pc * CycleOutcome)) : nat :=
  length (List.filter (fun g => f g.1) gs).

(** Goroutines inside a cycle (between [Lock] and return). *)
Definition in_flight (pc : Pc) : bool :=
  match pc with
  | AtCheck | AtStop | AtBuild | AtStart => true
  | _ => false
  end.

Definition is_returned (pc : Pc) : bool :=
  match pc with
  | Returned => true
  | _ => false
  end.

(** ** The watch loop *)

(** The local state of [watchFiles]: the application, [hasChanges], and
    the instant at which the debounce timer fires, [None] while the timer
    is stopped or has fired. *)
Record Watch := mkWatch {
  wapp : WindApp;
  hasChanges : bool;
  debounce : option Z
}.

(** What [select] delivers: the closed [stopChan], a tick of the ticker at
    an instant with the file tree of that moment, or the debounce timer's
    channel, with the outcomes of the system calls of the cycle it may
    start. *)
Inductive Event :=
| EvStop
| EvTick (now : Z) (root : fsnode)
| EvDebounce (o : CycleOutcome).

(** The result of one iteration of the loop: [watchFiles] returns, the
    goroutine is stuck in [Lock], or the loop goes on. *)
Inductive Iteration :=
| Return
| Stuck
| Continue (w : Watch) (tr : list Effect).

Definition handle (ev : Event) (w : Watch) : Iteration :=
  match ev with
  | EvStop => Return
  | EvTick now root =>
      let '(app', out, changed) := checkForChanges root (wapp w) in
      if changed && negb (hasChanges w) then
        Continue (mkWatch app' true (Some (now + DebounceDelay (config app')))) out
      else Continue (mkWatch app' (hasChanges w) (debounce w)) out
  | EvDebounce o =>
      if hasChanges w then
        match buildAndRun o (wapp w) with
        | Some (app', tr) => Continue (mkWatch app' false None) tr
        | None => Stuck
        end
      else Continue (mkWatch (wapp w) (hasChanges w) None) []
  end.

(** The timer's channel can deliver at instant [now]. *)
Definition fires (now : Z) (w : Watch) : bool :=
  match debounce w with
  | Some d => d <=? now
  | None => false
  end.

(** The loop over a sequence of events, as far as it goes on. *)
Fixpoint watchLoop (evs : list Event) (w : Watch) (tr : list Effect)
  : Watch * list Effect :=
  match evs with
  | [] => (w, tr)
  | ev :: evs' =>
      match handle ev w with
      | Continue w' tr' => watchLoop evs' w' (tr ++ tr')
      | _ => (w, tr)
      end
  end.

(** [watchFiles] starts with a stopped timer and no pending change. *)
Definition watchFiles (evs : list Event) (app : WindApp) : Watch * list Effect :=
  watchLoop evs (mkWatch app false None) [].

Definition is_tick (ev : Event) : bool :=
  match ev with
  | EvTick _ _ => true
  | _ => false
  end.

(** ** Project layout *)

(** The file system as [detectProjectStructure] reads it: whether
    [os.Stat] succeeds on a path, and what [os.ReadDir] returns. *)
Record DirEntry := mkEntry { Name : string; EntryIsDir : bool }.

Record FileSystem := mkFS {
  Stat : string -> bool;
  ReadDir : string -> option (list DirEntry)
}.

Definition buildPrefix : string := "go build -o ./tmp/main ".

(** The loop of option 4 over the entries of [cmd]. *)
Fixpoint firstCmdMain (fs : FileSystem) (entries : list DirEntry)
  : option (string * string) :=
  match entries with
  | [] => None
  | entry :: rest =>
      if EntryIsDir entry then
        let mainPath := Join (Join "cmd" (Name entry)) "main.go" in
        if Stat fs mainPath then
          let buildPath := "./cmd/" +:+ Name entry in
          Some (buildPrefix +:+ buildPath,
                "Standard layout (cmd/" +:+ Name entry +:+ "/)")
        else firstCmdMain fs rest
      else firstCmdMain fs rest
  end.

Definition fallback : string * string :=
  ("go build -o ./tmp/main .", "Fallback (current directory)").

Definition detectProjectStructure (fs : FileSystem) : string * string :=
  if Stat fs "cmd/api/main.go" then
    ("go build -o ./tmp/main ./cmd/api", "Standard layout (cmd/api/)")
  else if Stat fs "cmd/main.go" then
    ("go build -o ./tmp/main ./cmd", "Standard layout (cmd/)")
  else if Stat fs "main.go" then
    ("go build -o ./tmp/main .", "Simple layout (root main.go)")
  else
    match ReadDir fs "cmd" with
    | Some entries =>
        match firstCmdMain fs entries with
        | Some r => r
        | None => fallback
        end
    | None => fallback
    end.

(** The configuration of [runWatcher] on a file system. *)
Definition runWatcherConfig (fs : FileSystem) : WindConfig :=
  defaultConfig (detectProjectStructure fs).1.

(** The elements of a relative path: split at the separators, without the
    empty elements and the ["."] elements, which is what [filepath.Clean]
    removes from a path without [".."]. *)
Fixpoint elements_from (s : string) (cur : string) : list string :=
  match s with
  | EmptyString => [cur]
  | String c s' =>
      if Ascii.eqb c slash then cur :: elements_from s' ""
      else elements_from s' (cur +:+ String c "")
  end.

Definition elements (path : string) : list string :=
  List.filter (fun e => negb (String.eqb e "") && negb (String.eqb e "."))
    (elements_from path "").

(** ** Start-up, shutdown and the command line *)

(** [getCurrentDir]; [wd] is what [os.Getwd] returns. *)
Definition getCurrentDir (wd : error + string) : string :=
  match wd with
  | inr dir => dir
  | inl _ => "unknown"
  end.

(** What [main], [handleArgs], [showHelp] and [runWatcher] print and do on
    top of the effects of the watcher itself.  [OutHelp] stands for the
    lines of [showHelp]. *)
Inductive Output :=
| OutBanner
| OutDetected (buildTarget : string)
| OutStartingWatcher
| OutCurrentDir (dir : string)
| DoMkdirAll (path : string)
| OutMkdirFailed (e : error)
| OutPressCtrlC
| OutShuttingDown
| OutHelp
| OutVersion
| OutUnknownCommand (cmd : string)
| OutEffect (e : Effect).

(** What one run of [runWatcher] meets: the file system at the layout
    detection, the results of [os.Getwd] and [os.MkdirAll], the file tree
    at the initial scan, the outcomes of the initial cycle, what the
    [select] of [watchFiles] delivers until the interrupt, and what
    [cleanup] finds. *)
Record World := mkWorld {
  wFS : FileSystem;
  wGetwd : error + string;
  wMkdirErr : option error;
  wTree : fsnode;
  wFirst : CycleOutcome;
  wEvents : list Event;
  wSignalErr : option error;
  wBinaryExists : bool
}.

(** [runWatcher], for an interrupt that arrives while the goroutine of
    [watchFiles] waits in its [select]: the loop has handled [wEvents] and
    [cleanup] runs after it.  The error of the initial [scanFiles] is
    dropped, as in the source. *)
Definition runWatcher (w : World) : WindApp * list Output :=
  let '(buildCmd, buildTarget) := detectProjectStructure (wFS w) in
  let config := defaultConfig buildCmd in
  let app := newApp config in
  let out := [OutDetected buildTarget; OutStartingWatcher;
              OutCurrentDir (getCurrentDir (wGetwd w)); DoMkdirAll "tmp"] in
  match wMkdirErr w with
  | Some err => (app, out ++ [OutMkdirFailed err])
  | None =>
      let app := (scanFiles (wTree w) app).1 in
      match buildAndRun (wFirst w) app with
      | None => (app, out)
      | Some (app, first) =>
          let '(watch, watched) := watchFiles (wEvents w) app in
          let '(app, cleaned) :=
            cleanup (wSignalErr w) (wBinaryExists w) (wapp watch) in
          (app,
           out ++ map OutEffect first ++ [OutPressCtrlC]
           ++ map OutEffect watched ++ [OutShuttingDown] ++ map OutEffect cleaned)
      end
  end.

(** [handleArgs]; [None] is the panic of [args[0]] on an empty slice.
    [watcher] is what [runWatcher] prints and does. *)
Definition handleArgs (args : list string) (watcher : list Output)
  : option (list Output) :=
  match args with
  | [] => None
  | arg :: _ =>
      if String.eqb arg "init" then Some watcher
      else if existsb (String.eqb arg) ["help"; "-h"; "--help"] then Some [OutHelp]
      else if existsb (String.eqb arg) ["version"; "-v"; "--version"] then
        Some [OutVersion]
      else Some [OutUnknownCommand arg; OutHelp]
  end.

(** [main] on [os.Args]; [None] is a panic ([os.Args[1:]] of an empty
    slice, after the banner is printed). *)
Definition main (osArgs : list string) (watcher : list Output)
  : option (list Output) :=
  if (length osArgs =? 1)%nat then Some (OutBanner :: watcher)
  else
    match osArgs with
    | [] => None
    | _ :: args => option_map (cons OutBanner) (handleArgs args watcher)
    end.

(** The effects among what [runWatcher] prints and does. *)
Definition effects (out : list Output) : list Effect :=
  flat_map (fun o => match o with
                     | OutEffect e => [e]
                     | _ => []
                     end) out.

(** The child process alive after a trace that starts with [cur] alive:
    a successful start ([PrintStarted]) makes its process the live one, a
    returned [Wait] on the live process leaves none.  The result is [None]
    when the trace starts a process while another one is alive. *)
Fixpoint generations (tr : list Effect) (cur : option Z) : option (option Z) :=
  match tr with
  | [] => Some cur
  | PrintStarted pid :: tr' =>
      match cur with
      | None => generations tr' (Some pid)
      | Some _ => None
      end
  | Wait pid :: tr' =>
      generations tr'
        (match cur with
         | Some live => if live =? pid then None else cur
         | None => None
         end)
  | _ :: tr' => generations tr' cur
  end.

(** Effects that act on a process or build. *)
Definition is_process_call (e : Effect) : bool :=
  match e with
  | SignalTERM _ | Kill _ | Wait _ | RunBuild _ | StartRun _ => true
  | _ => false
  end.

Definition is_debounce (ev : Event) : bool :=
  match ev with
  | EvDebounce _ => true
  | _ => false
  end.

Definition is_stop (ev : Event) : bool :=
  match ev with
  | EvStop => true
  | _ => false
  end.

(** The debounce timer is armed exactly while a change is pending. *)
Definition armed_iff_pending (w : Watch) : Prop :=
  hasChanges w = true <-> is_Some (debounce w).

(** Effects that neither start a process nor wait for one. *)
Definition quiet (e : Effect) : bool :=
  match e with
  | PrintStarted _ | Wait _ => false
  | _ => true
  end.

Definition is_scan_failure (e : Effect) : bool :=
  match e with
  | PrintScanFailed _ => true
  | _ => false
  end.






(** A string without a dot and without a separator. *)
Definition plain (s : string) : bool :=
  forallb (fun c => negb (Ascii.eqb c slash) && negb (Ascii.eqb c dot))
    (list_ascii_of_string s).

(** ** Notions used in the statements *)

Definition is_err (r : WalkResult) : bool :=
  match r with
  | RErr _ => true
  | _ => false
  end.

Definition at_check (pc : Pc) : bool :=
  match pc with
  | AtCheck => true
  | _ => false
  end.

Definition past_check (pc : Pc) : bool :=
  match pc with
  | AtStop | AtBuild | AtStart => true
  | _ => false
  end.

Definition built (pc : Pc) : bool :=
  match pc with
  | AtStart | Returned => true
  | _ => false
  end.

Definition b2n (b : bool) : nat := if b then 1%nat else 0%nat.

(** What holds of the goroutines and the shared state at every moment. *)
Definition serialised (sys : System) : Prop :=
  count_pc in_flight (goroutines sys) = b2n (mutex (shared sys)) /\
  count_pc past_check (goroutines sys) = b2n (building (shared sys)) /\
  builds (trace sys) = count_pc built (goroutines sys).

Definition cmdMain (fs : FileSystem) (entry : DirEntry) : bool :=
  EntryIsDir entry && Stat fs ("cmd/" +:+ Name entry +:+ "/main.go").

(** ** Example inputs *)

(** A project with a file in an excluded directory. *)
Definition tree_touched : fsnode :=
  Dir [("README.md", File 9); ("handler.go", File 4); ("main.go", File 5);
       ("vendor", Dir [("dep.go", File 8)])].

(** An index that knows [main.go] and [README.md] with older times. *)
Definition app_tracking_main : WindApp :=
  set_fileStates (newApp (defaultConfig "go build -o ./tmp/main ."))
    (<["main.go" := 2]> (<["README.md" := 1]> ∅)).

(** An excluded directory that holds an entry on which [Lstat] fails. *)
Definition tree_vendor_broken : fsnode :=
  Dir [("main.go", File 5);
       ("vendor", Dir [("dep.go", File 8); ("gone", Broken "lstat vendor/gone")])].

(** A project before and after [old.go] is deleted, and the application
    after the first scan of the former. *)
Definition tree_with_old : fsnode := Dir [("main.go", File 5); ("old.go", File 3)].

Definition tree_without_old : fsnode := Dir [("main.go", File 5)].

Definition app_after_first_scan : WindApp :=
  (scanFiles tree_with_old (newApp (defaultConfig "go build -o ./tmp/main ."))).1.

(** A file whose time lies before the one the index holds for it. *)
Definition tree_main_only : fsnode := Dir [("main.go", File 5)].

Definition app_with_later_time : WindApp :=
  set_fileStates (newApp (defaultConfig "go build -o ./tmp/main ."))
    {["main.go" := 10]}.

(** A project in which [Lstat] fails on [pkg], between files that have
    changed. *)
Definition tree_pkg_unreadable : fsnode :=
  Dir [("main.go", File 5); ("new.go", File 6);
       ("pkg", Broken "lstat pkg: no such file or directory"); ("util.go", File 9)].

Definition app_tracking_main_util : WindApp :=
  set_fileStates (newApp (defaultConfig "go build -o ./tmp/main ."))
    (<["main.go" := 3]> (<["util.go" := 3]> ∅)).

(** Applications with a running child process. *)
Definition app_running_4242 : WindApp :=
  set_process (newApp (defaultConfig "go build -o ./tmp/main .")) (Some 4242).

Definition app_running_100 : WindApp :=
  set_process (newApp (defaultConfig "go build -o ./tmp/main .")) (Some 100).

(** Two calls of [buildAndRun] whose builds and starts succeed. *)
Definition first_call : CycleOutcome := mkOutcome None None (inr 101).

Definition second_call : CycleOutcome := mkOutcome None None (inr 102).

(** Goroutine 0 is in the middle of its build. *)
Definition mid_build : System := run [0; 0; 0]%nat (spawn [first_call; second_call] app_running_100).

(** Goroutine 1 calls [buildAndRun] now; both run to their return. *)
Definition both_returned : System := run [1; 0; 1; 0; 1; 1; 1; 1; 1]%nat mid_build.

(** A configuration that polls every 100 ms and waits 300 ms, three
    tracked files, and their tree with given times. *)
Definition fast_poll_config : WindConfig :=
  mkConfig "go build -o ./tmp/main ." "./tmp/main" ["vendor"; ".git"] [".go"] 100 300.

Definition idle_watch : Watch :=
  mkWatch (set_fileStates (newApp fast_poll_config)
             (<["a.go" := 1]> (<["b.go" := 1]> (<["c.go" := 1]> ∅))))
    false None.

Definition abc_tree (a b c : Z) : fsnode :=
  Dir [("a.go", File a); ("b.go", File b); ("c.go", File c)].


(** A project with [cmd/worker/main.go] and [cmd/web/main.go], a plain
    file [cmd/README] and nothing else: [cmd] lists README, web, worker. *)
Definition fs_two_commands : FileSystem :=
  mkFS (fun p => existsb (String.eqb p)
                   ["go.mod"; "cmd"; "cmd/README"; "cmd/web"; "cmd/web/main.go";
                    "cmd/worker"; "cmd/worker/main.go"])
       (fun p => if String.eqb p "cmd"
                 then Some [mkEntry "README" false; mkEntry "web" true;
                            mkEntry "worker" true]
                 else None).

(** The projects of the repository's tests ([createTempProject]): the
    paths on which [os.Stat] succeeds and the listing of [cmd]. *)
Definition project (paths : list string) (cmd : option (list DirEntry)) : FileSystem :=
  mkFS (fun p => existsb (String.eqb p) paths)
       (fun p => if String.eqb p "cmd" then cmd else None).

Definition project_cmd_api : FileSystem :=
  project ["go.mod"; "cmd"; "cmd/api"; "cmd/api/main.go"] (Some [mkEntry "api" true]).
Definition project_cmd_root : FileSystem :=
  project ["go.mod"; "cmd"; "cmd/main.go"] (Some [mkEntry "main.go" false]).
Definition project_root : FileSystem :=
  project ["go.mod"; "main.go"] None.
Definition project_cmd_custom : FileSystem :=
  project ["go.mod"; "cmd"; "cmd/server"; "cmd/server/main.go"]
    (Some [mkEntry "server" true]).
Definition project_empty : FileSystem :=
  project ["go.mod"] None.
Definition project_multiple_mains : FileSystem :=
  project ["go.mod"; "cmd"; "cmd/api"; "cmd/api/main.go"; "cmd/migrator";
           "cmd/migrator/main.go"; "cmd/worker"; "cmd/worker/main.go"]
    (Some [mkEntry "api" true; mkEntry "migrator" true; mkEntry "worker" true]).

(** The tree of [TestExcludeDirectories]: the root project with a Go file
    in each excluded directory. *)
Definition tree_excluded_dirs : fsnode :=
  Dir [(".git", Dir [("test.go", File 2)]); (".idea", Dir [("test.go", File 2)]);
       (".vscode", Dir [("test.go", File 2)]); ("go.mod", File 1);
       ("main.go", File 1); ("node_modules", Dir [("test.go", File 2)]);
       ("tmp", Dir [("test.go", File 2)]); ("vendor", Dir [("test.go", File 2)])].

(** The tree of [TestIntegrationFileWatching] at its three scans. *)
Definition tree_watching (main : Z) (helper : option Z) : fsnode :=
  Dir ([("go.mod", File 1)]
       ++ match helper with
          | Some t => [("helper.go", File t)]
          | None => []
          end
       ++ [("main.go", File main)]).

(** A configuration whose fragments include the empty string. *)
Definition config_excluding_all : WindConfig :=
  mkConfig "go build -o ./tmp/main ." "./tmp/main" [""] [".go"] 500 300.

(** A run of the watcher: the project [fs_two_commands], a first build
    that succeeds, one detected change with its rebuild, and an interrupt
    after it. *)
Definition world_one_rebuild : World :=
  mkWorld fs_two_commands (inr "/home/dev/project") None (abc_tree 1 1 1)
    (mkOutcome None None (inr 11))
    [EvTick 500 (abc_tree 2 1 1); EvDebounce (mkOutcome None None (inr 12))]
    None true.

(** * Properties *)

(** ** Strings and paths *)

(** stdpp keeps [simpl] from unfolding string append; these two equations
    unfold it by hand. *)
Lemma append_cons (x : ascii) (a b : string) : String x a +:+ b = String x (a +:+ b).
Proof. reflexivity. Qed.

Lemma append_empty (b : string) : "" +:+ b = b.
Proof. reflexivity. Qed.

Ltac unfold_append := rewrite ?append_cons, ?append_empty.
Ltac unfold_append_in H := rewrite ?append_cons, ?append_empty in H.

Lemma append_assoc (a b c : string) : (a +:+ b) +:+ c = a +:+ (b +:+ c).
Proof. induction a as [|x a IH]; unfold_append; [reflexivity | now f_equal]. Qed.

Lemma append_nil_r (a : string) : a +:+ "" = a.
Proof. induction a as [|x a IH]; unfold_append; [reflexivity | now f_equal]. Qed.

Lemma append_inv_head (a b c : string) : a +:+ b = a +:+ c -> b = c.
Proof.
  induction a as [|x a IH]; unfold_append; intros H; [exact H | injection H; auto].
Qed.

Lemma HasPrefix_app_r (s x r : string) :
  HasPrefix s x = true -> HasPrefix (s +:+ r) x = true.
Proof.
  revert s; induction x as [|a x IH]; intros s H; [reflexivity|].
  destruct s as [|b s]; unfold_append; simpl in *; [discriminate|].
  destruct (Ascii.eqb a b); [auto | discriminate].
Qed.

Lemma Contains_app_r (s x r : string) :
  Contains s x = true -> Contains (s +:+ r) x = true.
Proof.
  induction s as [|b s IH]; unfold_append; simpl; intros H.
  - rewrite orb_false_r in H. destruct x; [|discriminate].
    destruct r; reflexivity.
  - apply orb_true_iff in H as [H|H]; apply orb_true_iff.
    + left. change (HasPrefix (String b s +:+ r) x = true).
      now apply HasPrefix_app_r.
    + right. auto.
Qed.

Lemma excluded_app_r (cfg : WindConfig) (p r : string) :
  excluded cfg p = true -> excluded cfg (p +:+ r) = true.
Proof.
  unfold excluded. rewrite !existsb_exists. intros (x & Hin & Hx).
  exists x; split; [assumption | now apply Contains_app_r].
Qed.

Lemma below_refl (dir : string) : below dir dir.
Proof. exists ""; split; [now left | now rewrite append_nil_r]. Qed.

Lemma Join_not_root (dir name : string) :
  dir <> "." -> Join dir name = dir +:+ "/" +:+ name.
Proof. unfold Join. intros H. destruct (String.eqb_spec dir "."); congruence. Qed.

Lemma Join_root (name : string) : Join "." name = name.
Proof. reflexivity. Qed.

Lemma valid_name_not_dot (name : string) : valid_name name = true -> name <> ".".
Proof.
  unfold valid_name. intros H ->. simpl in H. discriminate.
Qed.

Lemma Join_ne_dot (dir name : string) : valid_name name = true -> Join dir name <> ".".
Proof.
  intros Hv. unfold Join. destruct (String.eqb_spec dir ".") as [->|Hd].
  - now apply valid_name_not_dot.
  - destruct dir as [|a [|b dir]]; unfold_append; discriminate.
Qed.

Lemma below_Join (dir name p : string) :
  dir <> "." -> below (Join dir name) p -> below dir p.
Proof.
  intros Hd (r & Hr & ->). rewrite (Join_not_root _ _ Hd).
  exists ("/" +:+ name +:+ r). split.
  - right. unfold_append. unfold slash. eauto.
  - now rewrite !append_assoc.
Qed.

Lemma slashfree_cons (c : ascii) (s : string) :
  slashfree (String c s) = true -> c <> slash /\ slashfree s = true.
Proof.
  unfold slashfree. cbn [list_ascii_of_string forallb]. intros H.
  apply andb_true_iff in H as [Hc Hs]. split; [|exact Hs].
  apply negb_true_iff in Hc. now apply Ascii.eqb_neq in Hc.
Qed.

Lemma slashfree_split (n1 n2 r1 r2 : string) :
  slashfree n1 = true -> slashfree n2 = true -> tail_ok r1 -> tail_ok r2 ->
  n1 +:+ r1 = n2 +:+ r2 -> n1 = n2.
Proof.
  revert n2. induction n1 as [|a n1 IH]; intros [|b n2] H1 H2 T1 T2 E;
    unfold_append_in E.
  - reflexivity.
  - apply slashfree_cons in H2 as [Hb _].
    destruct T1 as [->|[r' ->]]; [discriminate|]. congruence.
  - apply slashfree_cons in H1 as [Ha _].
    destruct T2 as [->|[r' ->]]; [discriminate|]. congruence.
  - apply slashfree_cons in H1 as [_ H1]. apply slashfree_cons in H2 as [_ H2].
    injection E as -> E. f_equal. now apply (IH n2).
Qed.

Lemma valid_name_slashfree (name : string) : valid_name name = true -> slashfree name = true.
Proof. unfold valid_name. intros H. now apply andb_true_iff in H as [_ H]. Qed.

Lemma below_Join_disjoint (dir n1 n2 p : string) :
  valid_name n1 = true -> valid_name n2 = true -> n1 <> n2 ->
  below (Join dir n1) p -> below (Join dir n2) p -> False.
Proof.
  intros V1 V2 Hne (r1 & T1 & E1) (r2 & T2 & E2). subst p.
  apply Hne. apply valid_name_slashfree in V1, V2.
  unfold Join in E2. destruct (String.eqb_spec dir ".") as [_|_].
  - symmetry in E2. now apply (slashfree_split n1 n2 r1 r2).
  - rewrite !append_assoc in E2. apply append_inv_head in E2.
    unfold_append_in E2. injection E2 as E2. symmetry in E2.
    now apply (slashfree_split n1 n2 r1 r2).
Qed.

(** ** Induction over file trees *)

Lemma fsnode_ind (P : fsnode -> Prop) :
  (forall t, P (File t)) ->
  (forall entries, Forall (fun e => P e.2) entries -> P (Dir entries)) ->
  (forall e, P (DirUnreadable e)) ->
  (forall e, P (Broken e)) ->
  forall n, P n.
Proof.
  intros HF HD HU HB. fix IH 1. intros [t|entries|e|e].
  - apply HF.
  - apply HD. induction entries as [|[name c] l IHl]; constructor.
    + apply IH.
    + exact IHl.
  - apply HU.
  - apply HB.
Qed.

Lemma walk_Dir {S : Type} (fn : WalkFunc S) path entries s :
  walk fn path (Dir entries) s =
  let '(s1, r1) := fn path (Visit (mkInfo true 0) None) s in
  match r1 with
  | RNil => walk_entries fn path entries s1
  | _ => (s1, r1)
  end.
Proof.
  simpl. destruct (fn path _ s) as [s1 [| |e]]; try reflexivity.
  revert s1. induction entries as [|[name c] l IH]; intros s1; simpl; [reflexivity|].
  destruct (walk fn (Join path name) c s1) as [s' [| |e]]; try reflexivity.
  - apply IH.
  - destruct c; try apply IH; reflexivity.
Qed.

Lemma visited_Dir cfg path entries :
  visited cfg path (Dir entries) =
  if excluded cfg path then ([], RSkipDir) else visited_entries cfg path entries.
Proof.
  simpl. destruct (excluded cfg path); [reflexivity|].
  induction entries as [|[name c] l IH]; simpl; [reflexivity|].
  destruct (visited cfg (Join path name) c) as [v [| |e]]; try reflexivity;
    now rewrite IH.
Qed.

(** A file is never answered with [SkipDir] by this walk. *)
Lemma visited_File_result cfg path t : (visited cfg path (File t)).2 = RNil.
Proof. simpl. destruct (excluded cfg path), (shouldWatch cfg path); reflexivity. Qed.

(** ** A walk is a fold of the update over the visited files *)

Section Flatten.
Context {S : Type} (cfg : WindConfig) (upd : string -> Z -> S -> S).
Context (fn : WalkFunc S) (Inv : S -> Prop).
Hypothesis fn_shape : forall path arg s, Inv s -> fn path arg s = indexFn cfg upd path arg s.
Hypothesis upd_Inv : forall p t s, Inv s -> Inv (upd p t s).

Lemma applyAll_Inv l s : Inv s -> Inv (applyAll upd l s).
Proof. revert s; induction l as [|x l IH]; intros s H; simpl; auto. Qed.

Lemma applyAll_app l l' s :
  applyAll upd (l ++ l') s = applyAll upd l' (applyAll upd l s).
Proof. apply fold_left_app. Qed.

Lemma walk_visited n : forall path s, Inv s ->
  walk fn path n s = (applyAll upd (visited cfg path n).1 s, (visited cfg path n).2).
Proof.
  induction n as [t|entries IH|e|e] using fsnode_ind; intros path s Hs.
  - simpl. rewrite fn_shape by assumption. simpl.
    destruct (excluded cfg path); [reflexivity|].
    destruct (shouldWatch cfg path); reflexivity.
  - rewrite walk_Dir, visited_Dir, fn_shape by assumption. simpl.
    destruct (excluded cfg path); [reflexivity|]. simpl.
    revert s Hs. induction IH as [|[name c] l Hc _ IHl]; intros s Hs; simpl; [reflexivity|].
    simpl in Hc. rewrite (Hc _ _ Hs).
    pose proof (applyAll_Inv (visited cfg (Join path name) c).1 s Hs) as Hs'.
    destruct (visited cfg (Join path name) c) as [v r] eqn:Ev. simpl in *.
    destruct r as [| |e].
    + rewrite (IHl _ Hs'). destruct (visited_entries cfg path l) as [v' r'].
      simpl. now rewrite applyAll_app.
    + assert (Hnf : forall t, c <> File t).
      { intros t ->. pose proof (visited_File_result cfg (Join path name) t) as Hr.
        rewrite Ev in Hr. discriminate. }
      destruct c as [t| | |]; [now destruct (Hnf t)| | |];
        rewrite (IHl _ Hs'); destruct (visited_entries cfg path l) as [v' r'];
        simpl; now rewrite applyAll_app.
    + reflexivity.
  - simpl. now rewrite fn_shape.
  - simpl. now rewrite fn_shape.
Qed.
End Flatten.

(** ** The two scans as folds *)

Lemma scanFilesFn_shape (cfg : WindConfig) path arg app :
  config app = cfg -> scanFilesFn path arg app = indexFn cfg scanUpd path arg app.
Proof. intros <-. reflexivity. Qed.

Lemma checkForChangesFn_shape (cfg : WindConfig) path arg st :
  config st.1.1 = cfg ->
  checkForChangesFn path arg st = indexFn cfg checkUpd path arg st.
Proof.
  destruct st as [[app changed] out]. simpl. intros <-.
  destruct arg as [info [err|]|err]; simpl; try reflexivity.
  destruct (excluded (config app) path); [reflexivity|].
  destruct (negb (IsDir info) && shouldWatch (config app) path); [|reflexivity].
  destruct (fileStates app !! path) as [lastMod|]; [|reflexivity].
  destruct (lastMod <? ModTime info); reflexivity.
Qed.

Lemma scanUpd_config p t app : config (scanUpd p t app) = config app.
Proof. reflexivity. Qed.

Lemma checkUpd_config p t st : config (checkUpd p t st).1.1 = config st.1.1.
Proof.
  destruct st as [[app changed] out]. simpl.
  destruct (fileStates app !! p) as [l|]; [destruct (l <? t)|]; reflexivity.
Qed.

Lemma scanFiles_visited root app :
  scanFiles root app =
  (applyAll scanUpd (visited (config app) "." root).1 app, walkError (config app) root).
Proof.
  unfold scanFiles, Walk, walkError.
  rewrite (walk_visited (config app) scanUpd scanFilesFn (fun a => config a = config app)).
  - simpl. destruct (visited (config app) "." root).2; reflexivity.
  - intros. now apply scanFilesFn_shape.
  - intros p t s Hs. now rewrite scanUpd_config.
  - reflexivity.
Qed.

Lemma checkForChanges_visited root app :
  checkForChanges root app =
  let '(app', changed, out) :=
    applyAll checkUpd (visited (config app) "." root).1 (app, false, []) in
  match walkError (config app) root with
  | Some e => (app', out ++ [PrintScanFailed e], changed)
  | None => (app', out, changed)
  end.
Proof.
  unfold checkForChanges, Walk, walkError.
  rewrite (walk_visited (config app) checkUpd checkForChangesFn
             (fun st => config st.1.1 = config app)).
  - destruct (applyAll checkUpd _ _) as [[app' changed] out].
    destruct (visited (config app) "." root).2; reflexivity.
  - intros. now apply checkForChangesFn_shape.
  - intros p t s Hs. now rewrite checkUpd_config.
  - reflexivity.
Qed.

(** ** What the folds do to the index *)

Lemma checkUpd_fileStates p t st :
  fileStates (checkUpd p t st).1.1 =
  <[p := merged (fileStates st.1.1 !! p) t]> (fileStates st.1.1).
Proof.
  destruct st as [[app changed] out]. simpl. unfold merged.
  destruct (fileStates app !! p) as [l|] eqn:E; [|reflexivity].
  destruct (l <? t); [reflexivity|]. simpl. now rewrite insert_id.
Qed.

Lemma checkUpd_changed p t st :
  (checkUpd p t st).1.2 = st.1.2 || advanced (fileStates st.1.1) (p, t).
Proof.
  destruct st as [[app changed] out]. unfold advanced. simpl.
  destruct (fileStates app !! p) as [l|]; [destruct (l <? t)|]; simpl;
    rewrite ?orb_true_r, ?orb_false_r; reflexivity.
Qed.

Lemma checkUpd_out p t st :
  (checkUpd p t st).2 =
  st.2 ++ (if advanced (fileStates st.1.1) (p, t) then [PrintFileChanged p] else []).
Proof.
  destruct st as [[app changed] out]. unfold advanced. simpl.
  destruct (fileStates app !! p) as [l|]; [destruct (l <? t)|]; simpl;
    rewrite ?app_nil_r; reflexivity.
Qed.

Lemma checkUpd_rest p t st :
  process (checkUpd p t st).1.1 = process st.1.1 /\
  building (checkUpd p t st).1.1 = building st.1.1 /\
  mutex (checkUpd p t st).1.1 = mutex st.1.1.
Proof.
  destruct st as [[app changed] out]. simpl.
  destruct (fileStates app !! p) as [l|]; [destruct (l <? t)|]; auto.
Qed.

Lemma advanced_insert_ne m q v x : q <> x.1 -> advanced (<[q := v]> m) x = advanced m x.
Proof. intros H. unfold advanced. now rewrite lookup_insert_ne. Qed.

Section CheckFold.
Implicit Types (l : list (string * Z)) (st : WindApp * bool * list Effect).

Lemma check_untouched l st p :
  ~ In p (map fst l) ->
  fileStates (applyAll checkUpd l st).1.1 !! p = fileStates st.1.1 !! p.
Proof.
  revert st. induction l as [|[q t] l IH]; intros st Hp; [reflexivity|].
  simpl in *. rewrite IH by (intros ?; apply Hp; now right).
  rewrite checkUpd_fileStates. apply lookup_insert_ne.
  intros E. apply Hp. now left.
Qed.

Lemma check_touched l st p t :
  NoDup (map fst l) -> In (p, t) l ->
  fileStates (applyAll checkUpd l st).1.1 !! p
  = Some (merged (fileStates st.1.1 !! p) t).
Proof.
  revert st. induction l as [|[q u] l IH]; intros st Hnd Hin; [destruct Hin|].
  simpl in *. apply NoDup_cons in Hnd as [Hq Hnd]. destruct Hin as [E|Hin].
  - injection E as -> ->. rewrite check_untouched.
    + rewrite checkUpd_fileStates. apply lookup_insert_eq.
    + now rewrite <- list_elem_of_In.
  - rewrite (IH _ Hnd Hin). rewrite checkUpd_fileStates.
    rewrite lookup_insert_ne; [reflexivity|].
    intros ->. apply Hq. rewrite list_elem_of_In. apply (in_map fst _ _ Hin).
Qed.

Lemma existsb_advanced_insert l m q v :
  ~ In q (map fst l) ->
  existsb (advanced (<[q := v]> m)) l = existsb (advanced m) l.
Proof.
  induction l as [|x l IH]; intros Hq; [reflexivity|]. simpl in *.
  rewrite IH by (intros ?; apply Hq; now right).
  rewrite advanced_insert_ne by (intros ?; apply Hq; now left). reflexivity.
Qed.

Lemma filter_advanced_insert l m q v :
  ~ In q (map fst l) ->
  List.filter (advanced (<[q := v]> m)) l = List.filter (advanced m) l.
Proof.
  induction l as [|x l IH]; intros Hq; [reflexivity|]. simpl in *.
  rewrite IH by (intros ?; apply Hq; now right).
  rewrite advanced_insert_ne by (intros ?; apply Hq; now left). reflexivity.
Qed.

Lemma check_changed l st :
  NoDup (map fst l) ->
  (applyAll checkUpd l st).1.2 = st.1.2 || existsb (advanced (fileStates st.1.1)) l.
Proof.
  revert st. induction l as [|[q u] l IH]; intros st Hnd.
  - simpl. now rewrite orb_false_r.
  - simpl in *. apply NoDup_cons in Hnd as [Hq Hnd]. rewrite (IH _ Hnd).
    rewrite checkUpd_changed, checkUpd_fileStates.
    rewrite existsb_advanced_insert by now rewrite <- list_elem_of_In.
    now rewrite orb_assoc.
Qed.

Lemma check_out l st :
  NoDup (map fst l) ->
  (applyAll checkUpd l st).2 =
  st.2 ++ map (fun x => PrintFileChanged x.1)
            (List.filter (advanced (fileStates st.1.1)) l).
Proof.
  revert st. induction l as [|[q u] l IH]; intros st Hnd.
  - simpl. now rewrite app_nil_r.
  - simpl in *. apply NoDup_cons in Hnd as [Hq Hnd]. rewrite (IH _ Hnd).
    rewrite checkUpd_out, checkUpd_fileStates.
    rewrite filter_advanced_insert by now rewrite <- list_elem_of_In.
    rewrite <- app_assoc. f_equal.
    destruct (advanced (fileStates st.1.1) (q, u)); reflexivity.
Qed.

Lemma check_rest l st :
  config (applyAll checkUpd l st).1.1 = config st.1.1 /\
  process (applyAll checkUpd l st).1.1 = process st.1.1 /\
  building (applyAll checkUpd l st).1.1 = building st.1.1 /\
  mutex (applyAll checkUpd l st).1.1 = mutex st.1.1.
Proof.
  revert st. induction l as [|[q u] l IH]; intros st; [auto|].
  simpl. destruct (IH (checkUpd q u st)) as (-> & -> & -> & ->).
  rewrite checkUpd_config. destruct (checkUpd_rest q u st) as (-> & -> & ->). auto.
Qed.
End CheckFold.

Section ScanFold.
Implicit Types (l : list (string * Z)) (app : WindApp).

Lemma scan_untouched l app p :
  ~ In p (map fst l) ->
  fileStates (applyAll scanUpd l app) !! p = fileStates app !! p.
Proof.
  revert app. induction l as [|[q t] l IH]; intros app Hp; [reflexivity|].
  simpl in *. rewrite IH by (intros ?; apply Hp; now right). simpl. apply lookup_insert_ne.
  intros E. apply Hp. now left.
Qed.

Lemma scan_touched l app p t :
  NoDup (map fst l) -> In (p, t) l ->
  fileStates (applyAll scanUpd l app) !! p = Some t.
Proof.
  revert app. induction l as [|[q u] l IH]; intros app Hnd Hin; [destruct Hin|].
  simpl in *. apply NoDup_cons in Hnd as [Hq Hnd]. destruct Hin as [E|Hin].
  - injection E as -> ->. rewrite scan_untouched.
    + simpl. apply lookup_insert_eq.
    + now rewrite <- list_elem_of_In.
  - now rewrite (IH _ Hnd Hin).
Qed.

Lemma scan_rest l app :
  config (applyAll scanUpd l app) = config app /\
  process (applyAll scanUpd l app) = process app /\
  building (applyAll scanUpd l app) = building app /\
  mutex (applyAll scanUpd l app) = mutex app.
Proof.
  revert app. induction l as [|[q u] l IH]; intros app; [auto|].
  simpl. destruct (IH (scanUpd q u app)) as (-> & -> & -> & ->). auto.
Qed.
End ScanFold.

(** ** The visited files of a tree *)

Lemma Join_ne_dot_below (dir name : string) : dir <> "." -> Join dir name <> ".".
Proof.
  intros Hd. rewrite (Join_not_root _ _ Hd).
  destruct dir as [|a [|b dir]]; unfold_append; discriminate.
Qed.

Lemma visited_entries_in cfg path l x :
  In x (visited_entries cfg path l).1 ->
  exists name c, In (name, c) l /\ In x (visited cfg (Join path name) c).1.
Proof.
  induction l as [|[name c] l IH]; simpl; [tauto|].
  destruct (visited cfg (Join path name) c) as [v r] eqn:Ev.
  assert (Hv : In x v -> exists name0 c0,
             ((name, c) = (name0, c0) \/ In (name0, c0) l) /\
             In x (visited cfg (Join path name0) c0).1).
  { intros Hx. exists name, c. rewrite Ev. auto. }
  assert (Hl : In x (visited_entries cfg path l).1 -> exists name0 c0,
             ((name, c) = (name0, c0) \/ In (name0, c0) l) /\
             In x (visited cfg (Join path name0) c0).1).
  { intros Hx. destruct (IH Hx) as (n0 & c0 & Hin & Hx'). exists n0, c0. auto. }
  destruct (visited_entries cfg path l) as [v' r'].
  destruct r; simpl; rewrite ?in_app_iff; intuition.
Qed.

(** Every visited file is a file of the tree and is eligible, whether or
    not the walk failed later. *)
Lemma visited_sound cfg n : forall path x,
  In x (visited cfg path n).1 -> eligible cfg x.1 = true /\ In x (all_files path n).
Proof.
  induction n as [t|entries IH|e|e] using fsnode_ind; intros path x Hx;
    try (simpl in Hx; tauto).
  - simpl in Hx. unfold eligible. destruct (excluded cfg path) eqn:Ex; [destruct Hx|].
    destruct (shouldWatch cfg path) eqn:Ew; [|destruct Hx].
    destruct Hx as [<-|[]]. simpl. rewrite Ex, Ew. auto.
  - rewrite visited_Dir in Hx. destruct (excluded cfg path); [destruct Hx|].
    apply visited_entries_in in Hx as (name & c & Hin & Hx).
    rewrite Forall_forall in IH.
    destruct (IH (name, c)) with (path := Join path name) (x := x) as [He Hf].
    { now rewrite list_elem_of_In. }
    { exact Hx. }
    split; [exact He|]. simpl. apply in_flat_map. exists (name, c). auto.
Qed.

Lemma visited_below cfg n : forall path x,
  path <> "." -> In x (visited cfg path n).1 -> below path x.1.
Proof.
  induction n as [t|entries IH|e|e] using fsnode_ind; intros path x Hp Hx;
    try (simpl in Hx; tauto).
  - simpl in Hx. destruct (excluded cfg path); [destruct Hx|].
    destruct (shouldWatch cfg path); [|destruct Hx].
    destruct Hx as [<-|[]]. apply below_refl.
  - rewrite visited_Dir in Hx. destruct (excluded cfg path); [destruct Hx|].
    apply visited_entries_in in Hx as (name & c & Hin & Hx).
    rewrite Forall_forall in IH. apply (below_Join path name); [assumption|].
    apply (IH (name, c)).
    + now rewrite list_elem_of_In.
    + now apply Join_ne_dot_below.
    + exact Hx.
Qed.

Lemma distinct_cons_notin (name : string) (names : list string) :
  distinct (name :: names) = true -> ~ In name names /\ distinct names = true.
Proof.
  simpl. intros H. apply andb_true_iff in H as [H1 H2]. split; [|exact H2].
  intros Hin. apply negb_true_iff in H1.
  assert (existsb (String.eqb name) names = true) as E; [|congruence].
  apply existsb_exists. exists name. split; [assumption | apply String.eqb_refl].
Qed.

(** In a well-formed tree no path is visited twice. *)
Lemma visited_NoDup cfg n : wf_tree n = true ->
  forall path, NoDup (map fst (visited cfg path n).1).
Proof.
  induction n as [t|entries IH|e|e] using fsnode_ind; intros Hwf path;
    try (simpl; constructor).
  - simpl. destruct (excluded cfg path); [constructor|].
    destruct (shouldWatch cfg path); simpl; repeat constructor.
    rewrite list_elem_of_In. simpl. tauto.
  - rewrite visited_Dir. destruct (excluded cfg path); [constructor|].
    simpl in Hwf. apply andb_true_iff in Hwf as [Hwf Hsub].
    apply andb_true_iff in Hwf as [Hval Hdis].
    induction IH as [|[name c] l Hc _ IHl]; [constructor|].
    simpl in *. apply andb_true_iff in Hsub as [Hwc Hsub].
    apply andb_true_iff in Hval as [Hvn Hval].
    pose proof (distinct_cons_notin _ _ Hdis) as [Hnotin Hdis'].
    specialize (IHl Hval Hdis' Hsub). specialize (Hc Hwc (Join path name)).
    pose proof (fun x => visited_below cfg c (Join path name) x (Join_ne_dot path name Hvn))
      as Hbelow.
    destruct (visited cfg (Join path name) c) as [v r].
    assert (Hgoal : NoDup (map fst (v ++ (visited_entries cfg path l).1))).
    { rewrite map_app. apply NoDup_app. split; [exact Hc|]. split; [|exact IHl].
      intros p Hp Hp'. rewrite list_elem_of_In in Hp, Hp'.
      apply in_map_iff in Hp as (x & <- & Hx).
      apply in_map_iff in Hp' as (x' & E & Hx').
      apply visited_entries_in in Hx' as (name' & c' & Hin' & Hx').
      assert (Hv' : valid_name name' = true).
      { rewrite forallb_forall in Hval. apply Hval. apply (in_map fst _ _ Hin'). }
      assert (Hne : name <> name').
      { intros ->. apply Hnotin. apply (in_map fst _ _ Hin'). }
      apply (below_Join_disjoint path name name' x.1 Hvn Hv' Hne).
      - now apply Hbelow.
      - rewrite <- E. apply (visited_below cfg c'); [|exact Hx'].
        now apply Join_ne_dot. }
    destruct (visited_entries cfg path l) as [v' r']. simpl in *.
    destruct r; simpl; assumption.
Qed.

Lemma all_files_below n : forall path x,
  path <> "." -> In x (all_files path n) -> below path x.1.
Proof.
  induction n as [t|entries IH|e|e] using fsnode_ind; intros path x Hp Hx;
    try (simpl in Hx; tauto).
  - destruct Hx as [<-|[]]. apply below_refl.
  - simpl in Hx. apply in_flat_map in Hx as ([name c] & Hin & Hx).
    rewrite Forall_forall in IH. apply (below_Join path name); [assumption|].
    apply (IH (name, c)).
    + now rewrite list_elem_of_In.
    + now apply Join_ne_dot_below.
    + exact Hx.
Qed.

Lemma below_excluded cfg dir p :
  excluded cfg dir = true -> below dir p -> excluded cfg p = true.
Proof. intros He (r & _ & ->). now apply excluded_app_r. Qed.

Lemma filter_none {A : Type} (f : A -> bool) (l : list A) :
  (forall x, In x l -> f x = false) -> List.filter f l = [].
Proof.
  induction l as [|x l IH]; intros H; [reflexivity|]. simpl.
  rewrite (H x) by now left. apply IH. intros y Hy. apply H. now right.
Qed.

(** When the walk does not fail, the visited files are exactly the
    eligible files of the tree, in the order of the tree. *)
Lemma visited_complete cfg n : forall path,
  path <> "." \/ excluded cfg path = false ->
  (forall e, (visited cfg path n).2 <> RErr e) ->
  (visited cfg path n).1 = List.filter (fun x => eligible cfg x.1) (all_files path n).
Proof.
  induction n as [t|entries IH|e|e] using fsnode_ind; intros path Hp Hok.
  - simpl. unfold eligible. simpl.
    destruct (excluded cfg path), (shouldWatch cfg path); reflexivity.
  - rewrite visited_Dir in *. destruct (excluded cfg path) eqn:Ex.
    + destruct Hp as [Hp|Hp]; [|discriminate]. simpl. symmetry. apply filter_none.
      intros x Hx. unfold eligible.
      rewrite (below_excluded cfg path x.1 Ex); [reflexivity|].
      apply (all_files_below (Dir entries)); assumption.
    + simpl. induction IH as [|[name c] l Hc _ IHl]; [reflexivity|].
      simpl in *. rewrite List.filter_app.
      assert (Hchild : Join path name <> "." \/ excluded cfg (Join path name) = false).
      { destruct (String.eqb_spec path ".") as [->|Hne].
        - destruct (String.eqb_spec name ".") as [->|Hn]; [now right | now left].
        - left. now apply Join_ne_dot_below. }
      specialize (Hc (Join path name) Hchild).
      destruct (visited cfg (Join path name) c) as [v r].
      destruct r as [| |e]; try (exfalso; apply (Hok e); reflexivity);
        destruct (visited_entries cfg path l) as [v' r']; simpl in *;
        (rewrite Hc by discriminate; f_equal; apply IHl; intros e He; apply (Hok e);
         exact He).
  - exfalso. apply (Hok e). reflexivity.
  - exfalso. apply (Hok e). reflexivity.
Qed.

(** ** Consequences for the index *)

Lemma check_keys l st p :
  is_Some (fileStates (applyAll checkUpd l st).1.1 !! p) <->
  is_Some (fileStates st.1.1 !! p) \/ In p (map fst l).
Proof.
  revert st. induction l as [|[q t] l IH]; intros st; simpl; [tauto|].
  rewrite IH, checkUpd_fileStates. destruct (decide (q = p)) as [->|Hne].
  - rewrite lookup_insert_eq. split; [auto|]. intros _. left. eauto.
  - rewrite lookup_insert_ne by assumption. tauto.
Qed.

Lemma scan_keys l app p :
  is_Some (fileStates (applyAll scanUpd l app) !! p) <->
  is_Some (fileStates app !! p) \/ In p (map fst l).
Proof.
  revert app. induction l as [|[q t] l IH]; intros app; simpl; [tauto|].
  rewrite IH. simpl. destruct (decide (q = p)) as [->|Hne].
  - rewrite lookup_insert_eq. split; [auto|]. intros _. left. eauto.
  - rewrite lookup_insert_ne by assumption. tauto.
Qed.

(** A second pass over files the index already covers does nothing. *)
Lemma check_settled l st :
  (forall x, In x l -> advanced (fileStates st.1.1) x = false /\
                       is_Some (fileStates st.1.1 !! x.1)) ->
  applyAll checkUpd l st = st.
Proof.
  induction l as [|[q t] l IH]; intros H; [reflexivity|]. simpl.
  assert (E : checkUpd q t st = st).
  { destruct (H (q, t)) as [Ha [v Hv]]; [now left|].
    destruct st as [[app changed] out]. unfold advanced in Ha. simpl in *.
    rewrite Hv in *. now rewrite Ha. }
  rewrite E. apply IH. intros x Hx. apply H. now right.
Qed.

Lemma merged_not_advanced (old : option Z) (t : Z) : (merged old t <? t) = false.
Proof.
  unfold merged. destruct old as [l|]; [destruct (l <? t) eqn:E|]; lia.
Qed.

Lemma WindApp_eq (a b : WindApp) :
  config a = config b -> process a = process b -> building a = building b ->
  mutex a = mutex b -> fileStates a = fileStates b -> a = b.
Proof. destruct a, b; simpl; intros; subst; reflexivity. Qed.

Lemma walkError_None_ok cfg root :
  walkError cfg root = None -> forall e, (visited cfg "." root).2 <> RErr e.
Proof.
  unfold walkError. intros H e E. rewrite E in H. discriminate.
Qed.

(** The projections of [checkForChanges] in terms of the fold. *)
Lemma checkForChanges_app root app :
  (checkForChanges root app).1.1 =
  (applyAll checkUpd (visited (config app) "." root).1 (app, false, [])).1.1.
Proof.
  rewrite checkForChanges_visited.
  destruct (applyAll checkUpd _ _) as [[app' changed] out].
  destruct (walkError (config app) root); reflexivity.
Qed.

Lemma checkForChanges_changed root app :
  (checkForChanges root app).2 =
  (applyAll checkUpd (visited (config app) "." root).1 (app, false, [])).1.2.
Proof.
  rewrite checkForChanges_visited.
  destruct (applyAll checkUpd _ _) as [[app' changed] out].
  destruct (walkError (config app) root); reflexivity.
Qed.

Lemma checkForChanges_out root app :
  (checkForChanges root app).1.2 =
  (applyAll checkUpd (visited (config app) "." root).1 (app, false, [])).2 ++
  match walkError (config app) root with
  | Some e => [PrintScanFailed e]
  | None => []
  end.
Proof.
  rewrite checkForChanges_visited.
  destruct (applyAll checkUpd _ _) as [[app' changed] out].
  destruct (walkError (config app) root); simpl; now rewrite ?app_nil_r.
Qed.

Lemma checkForChanges_config root app : config (checkForChanges root app).1.1 = config app.
Proof. rewrite checkForChanges_app. apply check_rest. Qed.

(** Membership in the visited list when the walk completes. *)
Lemma visited_iff cfg root x :
  excluded cfg "." = false -> walkError cfg root = None ->
  In x (visited cfg "." root).1 <->
  In x (all_files "." root) /\ eligible cfg x.1 = true.
Proof.
  intros Hroot Hok.
  rewrite (visited_complete cfg root "."); [|now right|now apply walkError_None_ok].
  now rewrite filter_In.
Qed.

(** ** The tests of the repository, on the model *)

(** [TestShouldWatch]. *)
Example test_shouldWatch :
  map (shouldWatch (defaultConfig ""))
    ["main.go"; "handler.go"; "template.html"; "style.css"; "script.js";
     "config.json"; "config.yaml"; "config.yml"; "README.md"; "image.png";
     "data.xml"; ""]
  = [true; true; true; true; true; true; true; true; false; false; false; false].
Proof. reflexivity. Qed.

(** [TestDetectProjectStructure] and [TestMultipleMainFiles]. *)
Example test_detectProjectStructure :
  map detectProjectStructure
    [project_cmd_api; project_cmd_root; project_root; project_cmd_custom;
     project_empty; project_multiple_mains]
  = [("go build -o ./tmp/main ./cmd/api", "Standard layout (cmd/api/)");
     ("go build -o ./tmp/main ./cmd", "Standard layout (cmd/)");
     ("go build -o ./tmp/main .", "Simple layout (root main.go)");
     ("go build -o ./tmp/main ./cmd/server", "Standard layout (cmd/server/)");
     ("go build -o ./tmp/main .", "Fallback (current directory)");
     ("go build -o ./tmp/main ./cmd/api", "Standard layout (cmd/api/)")].
Proof. reflexivity. Qed.

(** [TestExcludeDirectories]: only [main.go] is tracked. *)
Example test_exclude_directories :
  map_to_list (fileStates (scanFiles tree_excluded_dirs (newApp (defaultConfig ""))).1)
  = [("main.go", 1)].
Proof. reflexivity. Qed.

(** [TestIntegrationFileWatching]: a new file is tracked without a
    reported change, a modified file is reported. *)
Example test_file_watching :
  let app0 := (scanFiles (tree_watching 1 None) (newApp (defaultConfig ""))).1 in
  let r1 := checkForChanges (tree_watching 1 (Some 2)) app0 in
  let r2 := checkForChanges (tree_watching 3 (Some 2)) r1.1.1 in
  r1.2 = false /\ fileStates r1.1.1 !! "helper.go" = Some 2 /\
  r2.2 = true /\ r2.1.2 = [PrintFileChanged "main.go"].
Proof. repeat split; reflexivity. Qed.

(** * The claims *)

(** ** C1: what [checkForChanges] reports and stores *)

(** C1.  For a poll scan over a file tree (a well-formed one, whose walk
    does not fail and whose root is not excluded), [checkForChanges]
    returns true if and only if some eligible file that is already a key
    of the index has a modification time strictly after the stored one;
    such a file's stored time becomes the new one; an eligible file that
    is not yet a key is inserted with its time (and, by the first part, is
    never the reason for a reported change); a key whose file is not newer
    keeps its entry; and the same call repeated on the same tree returns
    false and changes nothing. *)
Theorem checkForChanges_reports_advanced (root : fsnode) (app : WindApp) :
  wf_tree root = true ->
  excluded (config app) "." = false ->
  walkError (config app) root = None ->
  ((checkForChanges root app).2 = true <->
     exists p t lastMod,
       In (p, t) (all_files "." root) /\ eligible (config app) p = true /\
       fileStates app !! p = Some lastMod /\ lastMod < t) /\
  (forall p t lastMod,
     In (p, t) (all_files "." root) -> eligible (config app) p = true ->
     fileStates app !! p = Some lastMod -> lastMod < t ->
     fileStates (checkForChanges root app).1.1 !! p = Some t) /\
  (forall p t,
     In (p, t) (all_files "." root) -> eligible (config app) p = true ->
     fileStates app !! p = None ->
     fileStates (checkForChanges root app).1.1 !! p = Some t) /\
  (forall p t lastMod,
     In (p, t) (all_files "." root) -> eligible (config app) p = true ->
     fileStates app !! p = Some lastMod -> ~ lastMod < t ->
     fileStates (checkForChanges root app).1.1 !! p = Some lastMod) /\
  checkForChanges root (checkForChanges root app).1.1
  = ((checkForChanges root app).1.1, [], false).
Proof.
  intros Hwf Hroot Hok.
  pose proof (visited_NoDup (config app) root Hwf ".") as Hnd.
  pose proof (fun x => visited_iff (config app) root x Hroot Hok) as Hvis.
  assert (Htouch : forall p t,
    In (p, t) (all_files "." root) -> eligible (config app) p = true ->
    fileStates (checkForChanges root app).1.1 !! p
    = Some (merged (fileStates app !! p) t)).
  { intros p t Hin He. rewrite checkForChanges_app.
    apply (check_touched _ (app, false, [])); [exact Hnd|].
    apply Hvis. auto. }
  split; [|split; [|split; [|split]]].
  - rewrite checkForChanges_changed, check_changed by exact Hnd. simpl.
    rewrite existsb_exists. split.
    + intros ([p t] & Hin & Ha). apply Hvis in Hin as [Hin He].
      unfold advanced in Ha. simpl in *.
      destruct (fileStates app !! p) as [lastMod|] eqn:E; [|discriminate].
      exists p, t, lastMod. repeat split; auto. lia.
    + intros (p & t & lastMod & Hin & He & E & Hlt). exists (p, t). split.
      * apply Hvis. auto.
      * unfold advanced. simpl. rewrite E. lia.
  - intros p t lastMod Hin He E Hlt. rewrite (Htouch p t Hin He), E. simpl.
    destruct (lastMod <? t) eqn:Eb; [reflexivity | lia].
  - intros p t Hin He E. now rewrite (Htouch p t Hin He), E.
  - intros p t lastMod Hin He E Hlt. rewrite (Htouch p t Hin He), E. simpl.
    destruct (lastMod <? t) eqn:Eb; [lia | reflexivity].
  - rewrite (checkForChanges_visited root (checkForChanges root app).1.1).
    rewrite checkForChanges_config, Hok.
    rewrite check_settled; [reflexivity|].
    intros [p t] Hx. simpl. apply Hvis in Hx as [Hin He]. simpl in He.
    unfold advanced. simpl. rewrite (Htouch p t Hin He). split; [|eauto].
    apply merged_not_advanced.
Qed.

(** A tree where [main.go] was touched, [handler.go] is new and
    [vendor/dep.go] lies in an excluded directory. *)
Lemma touched_main_go_is_reported :
  wf_tree tree_touched = true /\
  excluded (config app_tracking_main) "." = false /\
  walkError (config app_tracking_main) tree_touched = None /\
  (checkForChanges tree_touched app_tracking_main).2 = true /\
  checkForChanges tree_touched (checkForChanges tree_touched app_tracking_main).1.1
  = ((checkForChanges tree_touched app_tracking_main).1.1, [], false).
Proof.
  assert (H1 : wf_tree tree_touched = true) by reflexivity.
  assert (H2 : excluded (config app_tracking_main) "." = false) by reflexivity.
  assert (H3 : walkError (config app_tracking_main) tree_touched = None) by reflexivity.
  destruct (checkForChanges_reports_advanced tree_touched app_tracking_main H1 H2 H3)
    as (_ & _ & _ & _ & Hagain).
  split; [exact H1|]. split; [exact H2|]. split; [exact H3|].
  split; [reflexivity | exact Hagain].
Defined.

(** ** C4: excluded paths *)

Lemma check_out_mono l st e : In e st.2 -> In e (applyAll checkUpd l st).2.
Proof.
  revert st. induction l as [|[q t] l IH]; intros st H; [exact H|].
  simpl. apply IH. rewrite checkUpd_out. apply in_app_iff. now left.
Qed.

Lemma check_out_in l st q :
  In (PrintFileChanged q) (applyAll checkUpd l st).2 ->
  In (PrintFileChanged q) st.2 \/ In q (map fst l).
Proof.
  revert st. induction l as [|[r t] l IH]; intros st H; [now left|].
  simpl in *. apply IH in H as [H|H]; [|tauto].
  rewrite checkUpd_out in H. apply in_app_iff in H as [H|H]; [now left|].
  destruct (advanced _ _); [|destruct H].
  destruct H as [E|[]]. injection E as ->. right. now left.
Qed.

Lemma check_changed_out l st :
  (applyAll checkUpd l st).1.2 = true ->
  st.1.2 = true \/ exists q, In (PrintFileChanged q) (applyAll checkUpd l st).2.
Proof.
  revert st. induction l as [|[r t] l IH]; intros st H; [now left|].
  simpl in *. apply IH in H as [H|H]; [|now right].
  rewrite checkUpd_changed in H. apply orb_true_iff in H as [H|H]; [now left|].
  right. exists r. apply check_out_mono. rewrite checkUpd_out, H.
  apply in_app_iff. right. now left.
Qed.

Lemma visited_not_excluded cfg root p :
  excluded cfg p = true -> ~ In p (map fst (visited cfg "." root).1).
Proof.
  intros He Hin. apply in_map_iff in Hin as (x & <- & Hx).
  apply visited_sound in Hx as [Hel _]. unfold eligible in Hel.
  rewrite He in Hel. discriminate.
Qed.

(** C4.  An entry whose path contains an excluded fragment is skipped by
    both function literals before the extension is looked at, whatever the
    extension; a directory with such a path is answered with [SkipDir], so
    nothing below it is visited (not even an entry that cannot be read);
    hence neither scan changes the index at such a path, and a change that
    [checkForChanges] reports is never reported for such a path. *)
Theorem excluded_path_is_skipped (app : WindApp) (p : string) :
  excluded (config app) p = true ->
  (forall info changed out,
     scanFilesFn p (Visit info None) app
     = (app, if IsDir info then RSkipDir else RNil) /\
     checkForChangesFn p (Visit info None) (app, changed, out)
     = (app, changed, out, if IsDir info then RSkipDir else RNil)) /\
  (forall entries changed out,
     walk scanFilesFn p (Dir entries) app = (app, RSkipDir) /\
     walk checkForChangesFn p (Dir entries) (app, changed, out)
     = (app, changed, out, RSkipDir)) /\
  (forall root,
     fileStates (scanFiles root app).1 !! p = fileStates app !! p /\
     fileStates (checkForChanges root app).1.1 !! p = fileStates app !! p /\
     ~ In (PrintFileChanged p) (checkForChanges root app).1.2 /\
     ((checkForChanges root app).2 = true ->
      exists q, excluded (config app) q = false /\
                In (PrintFileChanged q) (checkForChanges root app).1.2)).
Proof.
  intros He. split; [|split].
  - intros info changed out. simpl. rewrite He. auto.
  - intros entries changed out. rewrite !walk_Dir. simpl. rewrite He. auto.
  - intros root.
    pose proof (visited_not_excluded (config app) root p He) as Hnot.
    split; [|split; [|split]].
    + rewrite scanFiles_visited. simpl. now apply scan_untouched.
    + rewrite checkForChanges_app. now apply (check_untouched _ (app, false, [])).
    + rewrite checkForChanges_out. intros Hin. apply in_app_iff in Hin as [Hin|Hin].
      * apply check_out_in in Hin as [[]|Hin]. now apply Hnot.
      * destruct (walkError (config app) root); [|destruct Hin].
        destruct Hin as [E|[]]. discriminate.
    + rewrite checkForChanges_changed. intros Hc.
      apply check_changed_out in Hc as [Hc|[q Hq]]; [discriminate|].
      exists q. split.
      * destruct (excluded (config app) q) eqn:Eq; [|reflexivity].
        apply check_out_in in Hq as [[]|Hq].
        now apply (visited_not_excluded (config app) root q) in Hq.
      * rewrite checkForChanges_out. apply in_app_iff. now left.
Qed.

(** [vendor/dep.go], a Go file in an excluded directory whose stored time
    is older than its current one, next to an entry that cannot be read. *)
Lemma vendor_file_stays_untracked :
  excluded (config app_tracking_main) "vendor/dep.go" = true /\
  fileStates (checkForChanges tree_vendor_broken (set_fileStates app_tracking_main {["vendor/dep.go" := 1]})).1.1
    !! "vendor/dep.go" = Some 1.
Proof.
  split; [reflexivity|].
  pose proof (excluded_path_is_skipped
                (set_fileStates app_tracking_main {["vendor/dep.go" := 1]}) "vendor/dep.go"
                eq_refl) as (_ & _ & H).
  destruct (H tree_vendor_broken) as (_ & -> & _). reflexivity.
Defined.

(** ** C5: the keys of the index after a scan *)

(** C5, as the code has it.  After a scan that completed without a walk
    error, a path is a key of the index exactly if it was a key before the
    scan or is an existing file that passes the watch filter: every such
    file is present and no key is ever removed. *)
Theorem index_keys_after_scan (root : fsnode) (app : WindApp) :
  excluded (config app) "." = false ->
  walkError (config app) root = None ->
  forall p,
    (is_Some (fileStates (scanFiles root app).1 !! p) <->
       is_Some (fileStates app !! p) \/
       exists t, In (p, t) (all_files "." root) /\ eligible (config app) p = true) /\
    (is_Some (fileStates (checkForChanges root app).1.1 !! p) <->
       is_Some (fileStates app !! p) \/
       exists t, In (p, t) (all_files "." root) /\ eligible (config app) p = true).
Proof.
  intros Hroot Hok p.
  assert (Hmem : In p (map fst (visited (config app) "." root).1) <->
                 exists t, In (p, t) (all_files "." root) /\
                           eligible (config app) p = true).
  { rewrite in_map_iff. split.
    - intros ([q t] & <- & Hx). apply visited_iff in Hx; [|assumption..]. eauto.
    - intros (t & Hin & He). exists (p, t). split; [reflexivity|].
      apply visited_iff; auto. }
  split.
  - rewrite scanFiles_visited. simpl. rewrite scan_keys. now rewrite Hmem.
  - rewrite checkForChanges_app, check_keys. simpl. now rewrite Hmem.
Qed.

Lemma new_handler_go_is_a_key :
  excluded (config app_tracking_main) "." = false /\
  walkError (config app_tracking_main) tree_touched = None /\
  is_Some (fileStates (checkForChanges tree_touched app_tracking_main).1.1 !! "handler.go").
Proof.
  split; [reflexivity|]. split; [reflexivity|].
  apply (index_keys_after_scan tree_touched app_tracking_main eq_refl eq_refl "handler.go").
  right. exists 4. split; [|reflexivity]. simpl. auto.
Defined.

(** The index is not exactly the set of existing eligible files: after
    [old.go] is deleted, a completed scan leaves its key in the index. *)
Lemma index_keeps_deleted_file :
  walkError (config app_after_first_scan) tree_without_old = None /\
  is_Some (fileStates (checkForChanges tree_without_old app_after_first_scan).1.1 !! "old.go") /\
  ~ exists t, In ("old.go", t) (all_files "." tree_without_old).
Proof.
  split; [reflexivity|]. split.
  - exists 3. reflexivity.
  - intros (t & [E|[]]). discriminate.
Qed.

(** ** C7: [scanFiles] against [checkForChanges] *)

(** C7, as the code has it.  [scanFiles] stores the current time of every
    visited file unconditionally, where [checkForChanges] replaces a
    stored time only by a strictly newer one.  So the two leave the same
    state when they start from an index that holds no time after the
    current one of an eligible file of the tree (the empty index at start
    up in particular); this also holds when the walk fails, since both
    stop at the same entry. *)
Theorem scanFiles_agrees_with_checkForChanges (root : fsnode) (app : WindApp) :
  wf_tree root = true ->
  (forall p t lastMod,
     In (p, t) (all_files "." root) -> eligible (config app) p = true ->
     fileStates app !! p = Some lastMod -> lastMod <= t) ->
  (scanFiles root app).1 = (checkForChanges root app).1.1.
Proof.
  intros Hwf Hold. rewrite scanFiles_visited, checkForChanges_app. simpl.
  pose proof (visited_NoDup (config app) root Hwf ".") as Hnd.
  set (l := (visited (config app) "." root).1) in *.
  destruct (scan_rest l app) as (Hc & Hp & Hb & Hm).
  destruct (check_rest l (app, false, [])) as (Hc' & Hp' & Hb' & Hm').
  apply WindApp_eq; simpl in *; try congruence.
  apply map_eq. intros i.
  destruct (in_dec string_dec i (map fst l)) as [Hin|Hnin].
  - apply in_map_iff in Hin as ([q t] & <- & Hx). simpl.
    rewrite (scan_touched l app q t Hnd Hx).
    rewrite (check_touched l (app, false, []) q t Hnd Hx). simpl.
    f_equal. unfold merged.
    destruct (fileStates app !! q) as [lastMod|] eqn:E; [|reflexivity].
    subst l. apply visited_sound in Hx as [He Hin].
    pose proof (Hold q t lastMod Hin He E).
    destruct (lastMod <? t) eqn:Eb; lia.
  - rewrite (scan_untouched l app i Hnin).
    now rewrite (check_untouched l (app, false, []) i Hnin).
Qed.

(** At start up the index is empty. *)
Lemma first_scan_agrees :
  wf_tree tree_touched = true /\
  (scanFiles tree_touched (newApp (config app_tracking_main))).1
  = (checkForChanges tree_touched (newApp (config app_tracking_main))).1.1.
Proof.
  split; [reflexivity|].
  apply (scanFiles_agrees_with_checkForChanges tree_touched (newApp (config app_tracking_main)) eq_refl).
  intros p t lastMod _ _ H. simpl in H. rewrite lookup_empty in H. discriminate.
Defined.

(** From an index that holds a later time for [main.go] than the file now
    has, [scanFiles] stores the older time and [checkForChanges] keeps the
    stored one: the two do not leave the same state. *)
Lemma scanFiles_differs_from_checkForChanges :
  fileStates (scanFiles tree_main_only app_with_later_time).1 !! "main.go" = Some 5 /\
  fileStates (checkForChanges tree_main_only app_with_later_time).1.1 !! "main.go" = Some 10 /\
  (scanFiles tree_main_only app_with_later_time).1 <> (checkForChanges tree_main_only app_with_later_time).1.1.
Proof.
  split; [reflexivity|]. split; [reflexivity|].
  intros E. apply (f_equal (fun a => fileStates a !! "main.go")) in E.
  vm_compute in E. discriminate.
Qed.

(** ** C6: a walk that fails *)

Lemma cut_Dir cfg path entries :
  cut cfg path (Dir entries) =
  if excluded cfg path then (Dir entries, false)
  else let '(entries', failed) := cut_entries cfg path entries in (Dir entries', failed).
Proof.
  simpl. destruct (excluded cfg path); [reflexivity|].
  assert (E : forall l,
    (fix cut_entries (l : list (string * fsnode)) : list (string * fsnode) * bool :=
       match l with
       | [] => ([], false)
       | (name, c) :: l' =>
           let '(c', failed) := cut cfg (Join path name) c in
           if failed then ([(name, c')], true)
           else let '(l'', failed') := cut_entries l' in ((name, c') :: l'', failed')
       end) l = cut_entries cfg path l).
  { induction l as [|[name c] l IH]; simpl; [reflexivity|]. now rewrite IH. }
  now rewrite E.
Qed.

(** The walk over the cut tree visits what the walk over the whole tree
    visits, does not fail, and something was cut exactly if the walk over
    the whole tree fails. *)
Lemma cut_visited cfg n : forall path,
  (visited cfg path (cut cfg path n).1).1 = (visited cfg path n).1 /\
  is_err (visited cfg path (cut cfg path n).1).2 = false /\
  (cut cfg path n).2 = is_err (visited cfg path n).2.
Proof.
  induction n as [t|entries IH|e|e] using fsnode_ind; intros path.
  - simpl. destruct (excluded cfg path), (shouldWatch cfg path); auto.
  - rewrite cut_Dir, (visited_Dir cfg path entries).
    destruct (excluded cfg path) eqn:Ex.
    { cbn [fst snd]. rewrite visited_Dir, Ex. auto. }
    assert (H : (visited_entries cfg path (cut_entries cfg path entries).1).1
                = (visited_entries cfg path entries).1 /\
                is_err (visited_entries cfg path (cut_entries cfg path entries).1).2 = false /\
                (cut_entries cfg path entries).2
                = is_err (visited_entries cfg path entries).2).
    { induction IH as [|[name c] l Hc _ IHl]; [auto|]. simpl in *.
      destruct (Hc (Join path name)) as (Hv & Hne & Hf).
      destruct (cut cfg (Join path name) c) as [c' failed]. cbn [fst snd] in *.
      destruct (visited cfg (Join path name) c) as [v r]. cbn [fst snd] in *.
      destruct IHl as (IHv & IHne & IHf).
      destruct (cut_entries cfg path l) as [l'' failed']. cbn [fst snd] in *.
      subst failed.
      destruct r as [| |e]; simpl;
        destruct (visited cfg (Join path name) c') as [v0 r0]; simpl in *; subst v0;
        destruct r0 as [| |e0]; try discriminate; simpl;
        destruct (visited_entries cfg path l'') as [v'' r''];
        destruct (visited_entries cfg path l) as [v' r']; simpl in *; subst;
        rewrite ?app_nil_r; auto. }
    destruct (cut_entries cfg path entries) as [entries' failed].
    cbn [fst snd] in *. rewrite visited_Dir, Ex. exact H.
  - simpl. destruct (excluded cfg path); auto.
  - simpl. destruct (excluded cfg path); auto.
Qed.

Lemma walkError_cut cfg root : walkError cfg (cut cfg "." root).1 = None.
Proof.
  unfold walkError. destruct (cut_visited cfg root ".") as (_ & H & _).
  destruct (visited cfg "." (cut cfg "." root).1).2; [reflexivity..|discriminate].
Qed.

(** C6, as the code has it.  When the walk of [checkForChanges] fails, the
    call still returns and the watch loop goes on with its next iteration;
    the error is printed; and the index and the reported result are those
    of a complete scan of the part of the tree before the failing entry:
    what was inserted, updated or detected before the failure is kept,
    what lies after it is not visited. *)
Theorem failed_scan_keeps_partial_results
  (root : fsnode) (app : WindApp) (e : error) :
  walkError (config app) root = Some e ->
  walkError (config app) (cut (config app) "." root).1 = None /\
  checkForChanges root app =
    (let '(app', out, changed) :=
       checkForChanges (cut (config app) "." root).1 app in
     (app', out ++ [PrintScanFailed e], changed)) /\
  (forall now w, wapp w = app ->
     exists w' out, handle (EvTick now root) w = Continue w' out /\
                    In (PrintScanFailed e) out /\
                    wapp w' = (checkForChanges root app).1.1).
Proof.
  intros Herr. split; [apply walkError_cut|]. split.
  - rewrite !checkForChanges_visited, Herr, walkError_cut.
    destruct (cut_visited (config app) root ".") as (-> & _ & _).
    destruct (applyAll checkUpd _ _) as [[app' changed] out]. reflexivity.
  - intros now w <-. unfold handle.
    pose proof (checkForChanges_out root (wapp w)) as Hout. rewrite Herr in Hout.
    destruct (checkForChanges root (wapp w)) as [[app' out] changed]. simpl in *.
    assert (Hin : In (PrintScanFailed e) out).
    { rewrite Hout. apply in_app_iff. right. now left. }
    destruct (changed && negb (hasChanges w)); eauto.
Qed.

(** A tree in which [pkg] cannot be [Lstat]ed. *)
Lemma scan_failing_at_pkg :
  walkError (config app_tracking_main_util) tree_pkg_unreadable = Some "lstat pkg: no such file or directory" /\
  checkForChanges tree_pkg_unreadable app_tracking_main_util =
    (let '(app', out, changed) :=
       checkForChanges (Dir [("main.go", File 5); ("new.go", File 6); ("pkg", Dir [])])
         app_tracking_main_util in
     (app', out ++ [PrintScanFailed "lstat pkg: no such file or directory"], changed)).
Proof.
  split; [reflexivity|].
  exact (proj1 (proj2 (failed_scan_keeps_partial_results tree_pkg_unreadable app_tracking_main_util _ eq_refl))).
Defined.

(** The results of a failed scan are not discarded: [main.go] is updated,
    [new.go] is inserted and the call reports a change, although the walk
    failed at [pkg]. *)
Lemma failed_scan_is_not_discarded :
  walkError (config app_tracking_main_util) tree_pkg_unreadable = Some "lstat pkg: no such file or directory" /\
  fileStates app_tracking_main_util !! "main.go" = Some 3 /\
  fileStates (checkForChanges tree_pkg_unreadable app_tracking_main_util).1.1 !! "main.go" = Some 5 /\
  fileStates app_tracking_main_util !! "new.go" = None /\
  fileStates (checkForChanges tree_pkg_unreadable app_tracking_main_util).1.1 !! "new.go" = Some 6 /\
  (checkForChanges tree_pkg_unreadable app_tracking_main_util).2 = true.
Proof. repeat split; reflexivity. Qed.

(** ** C8: stopping the child process *)

(** C8.  With a process handle held, [stopProcess] first sends SIGTERM,
    sends a kill exactly when SIGTERM could not be delivered, then waits
    for the process and only then clears the handle, leaving the rest of
    the state alone; with no handle held it does nothing, so a second
    stop after a stop does nothing. *)
Theorem stopProcess_graceful_then_reaped (app : WindApp) (sigErr : option error) :
  (forall pid, process app = Some pid ->
     exists escalation,
       (stopProcess sigErr app).2
       = [PrintStopping pid; SignalTERM pid] ++ escalation ++ [Wait pid] /\
       (escalation = [Kill pid] /\ is_Some sigErr \/
        escalation = [] /\ sigErr = None) /\
       (stopProcess sigErr app).1 = set_process app None) /\
  (process app = None -> stopProcess sigErr app = (app, [])) /\
  (forall sigErr',
     stopProcess sigErr' (stopProcess sigErr app).1 = ((stopProcess sigErr app).1, [])).
Proof.
  unfold stopProcess. split; [|split].
  - intros pid ->. destruct sigErr as [err|].
    + exists [Kill pid]. split; [reflexivity|]. split; [|reflexivity]. left. eauto.
    + exists []. auto.
  - now intros ->.
  - intros sigErr'. destruct (process app) eqn:E; simpl; [reflexivity|].
    now rewrite E.
Qed.

(** A running process 4242 that does not accept SIGTERM. *)
Lemma stop_escalates_to_kill :
  process app_running_4242 = Some 4242 /\
  (stopProcess (Some "os: process already finished") app_running_4242).2
  = [PrintStopping 4242; SignalTERM 4242; Kill 4242; Wait 4242] /\
  process (stopProcess (Some "os: process already finished") app_running_4242).1 = None.
Proof.
  split; [reflexivity|].
  destruct (stopProcess_graceful_then_reaped app_running_4242 (Some "os: process already finished"))
    as (H & _ & _).
  destruct (H 4242 eq_refl) as (esc & Htr & _ & Happ).
  rewrite Happ. split; reflexivity.
Defined.

(** ** C2: one build-and-run cycle at a time *)

Lemma builds_app (a b : list Effect) : builds (a ++ b) = (builds a + builds b)%nat.
Proof. unfold builds. now rewrite List.filter_app, length_app. Qed.

Lemma builds_stopProcess sigErr app : builds (stopProcess sigErr app).2 = 0%nat.
Proof.
  unfold stopProcess. destruct (process app); [|reflexivity].
  destruct sigErr; reflexivity.
Qed.

Lemma stopProcess_flags sigErr app :
  building (stopProcess sigErr app).1 = building app /\
  mutex (stopProcess sigErr app).1 = mutex app /\
  config (stopProcess sigErr app).1 = config app /\
  fileStates (stopProcess sigErr app).1 = fileStates app.
Proof. unfold stopProcess. destruct (process app); simpl; auto. Qed.

(** A cycle entered with the flag clear runs one build and clears the flag
    and the mutex, whatever the system calls return. *)
Lemma buildAndRun_cycle o app :
  mutex app = false -> building app = false ->
  exists app' tr, buildAndRun o app = Some (app', tr) /\
                  building app' = false /\ mutex app' = false /\ builds tr = 1%nat.
Proof.
  intros Hm Hb. unfold buildAndRun, buildAndRunLocked. rewrite Hm. simpl. rewrite Hb.
  pose proof (builds_stopProcess (signalErr o)
                (set_building (set_mutex app true) true)) as Hs.
  destruct (stopProcess _ _) as [app1 stopped]. simpl in Hs.
  destruct (buildErr o) as [err|]; [|destruct (startRes o) as [err|pid]];
    eexists _, _; (split; [reflexivity|]); simpl;
    rewrite !builds_app, Hs; auto.
Qed.

Lemma count_pc_insert f gs i pc o pc' :
  gs !! i = Some (pc, o) ->
  (count_pc f (<[i := (pc', o)]> gs) + b2n (f pc) = count_pc f gs + b2n (f pc'))%nat.
Proof.
  unfold count_pc. revert i. induction gs as [|g gs IH]; intros i H; [discriminate|].
  destruct i as [|i]; simpl in *.
  - injection H as ->. simpl. destruct (f pc), (f pc'); simpl; lia.
  - specialize (IH i H). destruct (f g.1); simpl; lia.
Qed.

Lemma count_pc_pos f gs i pc o :
  gs !! i = Some (pc, o) -> f pc = true -> (1 <= count_pc f gs)%nat.
Proof.
  unfold count_pc. revert i. induction gs as [|g gs IH]; intros i H Hf; [discriminate|].
  destruct i as [|i]; simpl in *.
  - injection H as ->. simpl. rewrite Hf. simpl. lia.
  - specialize (IH i H Hf). destruct (f g.1); simpl; lia.
Qed.

Lemma count_pc_in_flight gs :
  count_pc in_flight gs = (count_pc at_check gs + count_pc past_check gs)%nat.
Proof.
  unfold count_pc. induction gs as [|[pc o] gs IH]; [reflexivity|].
  simpl. destruct pc; simpl; lia.
Qed.

Lemma count_pc_all f gs :
  Forall (fun g => f g.1 = true) gs -> count_pc f gs = length gs.
Proof.
  unfold count_pc. induction 1 as [|g gs Hg _ IH]; [reflexivity|].
  simpl. rewrite Hg. simpl. now rewrite IH.
Qed.

Lemma serialised_spawn outcomes app :
  mutex app = false -> building app = false -> serialised (spawn outcomes app).
Proof.
  intros Hm Hb. unfold serialised, spawn. simpl. rewrite Hm, Hb. unfold count_pc.
  induction outcomes as [|o l IH]; simpl; auto.
Qed.

Lemma serialised_sched i sys : serialised sys -> serialised (sched i sys).
Proof.
  intros (Hfl & Hpc & Hbu). unfold sched.
  destruct (goroutines sys !! i) as [[pc o]|] eqn:Ei; [|now repeat split].
  assert (Hsame : serialised sys) by now repeat split.
  rewrite count_pc_in_flight in Hfl.
  pose proof (fun pc' => count_pc_insert at_check _ _ _ _ pc' Ei) as Ic.
  pose proof (fun pc' => count_pc_insert past_check _ _ _ _ pc' Ei) as Ip.
  pose proof (fun pc' => count_pc_insert built _ _ _ _ pc' Ei) as Ib.
  pose proof (count_pc_pos at_check _ _ _ _ Ei) as Pc.
  pose proof (count_pc_pos past_check _ _ _ _ Ei) as Pp.
  destruct (mutex (shared sys)) eqn:Em, (building (shared sys)) eqn:Eb;
    unfold b2n in Hfl, Hpc;
    destruct pc; simpl in Pc, Pp; try (specialize (Pc eq_refl)); try (specialize (Pp eq_refl));
    try lia; unfold step; rewrite ?Em, ?Eb; try exact Hsame;
    try (pose proof (builds_stopProcess (signalErr o) (shared sys)) as Hs;
         destruct (stopProcess_flags (signalErr o) (shared sys)) as (Hb' & Hm' & _);
         destruct (stopProcess (signalErr o) (shared sys)) as [app' tr];
         simpl in Hs, Hb', Hm');
    try destruct (buildErr o) as [err|];
    try destruct (startRes o) as [err'|pid];
    unfold serialised; cbn [shared trace goroutines mutex building set_mutex
                            set_building set_process];
    rewrite ?Hb', ?Hm', ?Em, ?Eb, ?count_pc_in_flight, ?builds_app, ?app_nil_r;
    match goal with
    | |- context [<[i := (?pc', _)]> _] =>
        specialize (Ic pc'); specialize (Ip pc'); specialize (Ib pc')
    end;
    unfold b2n, builds in *; simpl in *; repeat split; lia.
Qed.

Lemma serialised_run schedule sys : serialised sys -> serialised (run schedule sys).
Proof.
  revert sys. induction schedule as [|i l IH]; intros sys H; [exact H|].
  simpl. apply IH. now apply serialised_sched.
Qed.

Lemma sched_length i sys : length (goroutines (sched i sys)) = length (goroutines sys).
Proof.
  unfold sched. destruct (goroutines sys !! i) as [[pc o]|]; [|reflexivity].
  destruct (step o pc (shared sys)) as [[[pc' app'] tr]|]; [|reflexivity].
  simpl. apply length_insert.
Qed.

Lemma run_length schedule sys :
  length (goroutines (run schedule sys)) = length (goroutines sys).
Proof.
  revert sys. induction schedule as [|i l IH]; intros sys; [reflexivity|].
  simpl. now rewrite IH, sched_length.
Qed.

(** A goroutine that runs alone goes through [buildAndRun] in at most
    five steps. *)
Lemma buildAndRun_as_steps o app app' tr :
  buildAndRun o app = Some (app', tr) ->
  run [0; 0; 0; 0; 0]%nat (spawn [o] app)
  = mkSystem app' tr [(Returned, o)].
Proof.
  unfold buildAndRun, buildAndRunLocked, spawn, run, sched. simpl.
  destruct (mutex app) eqn:Em; [discriminate|]. simpl.
  destruct (building app) eqn:Eb; simpl.
  - intros H. injection H as <- <-. reflexivity.
  - destruct (stopProcess (signalErr o) (set_building (set_mutex app true) true))
      as [app1 stopped] eqn:Es. simpl.
    destruct (buildErr o) as [err|]; simpl;
      [|destruct (startRes o) as [err|pid]; simpl];
      intros H; injection H as <- <-; rewrite ?app_nil_r, <- ?app_assoc; reflexivity.
Qed.

(** What holds of [buildAndRun] for every schedule.  The mutex is held
    from the entry to the return, so at most one cycle is in flight; a
    cycle sets the flag at its entry and clears flag and mutex on every way
    out, running one build; a call that found the flag set would return
    without effect.  The test of the flag never succeeds, though: a call
    that arrives while a cycle is in flight blocks in [Lock], and once all
    calls have returned each of them has run a build of its own. *)
Theorem buildAndRun_cycles_are_serialised (app : WindApp) :
  mutex app = false ->
  (building app = true -> forall o, buildAndRun o app = Some (app, [])) /\
  (building app = false -> forall o,
     exists app' tr, buildAndRun o app = Some (app', tr) /\
                     building app' = false /\ mutex app' = false /\
                     builds tr = 1%nat) /\
  (building app = false -> forall outcomes schedule,
     (count_pc in_flight (goroutines (run schedule (spawn outcomes app))) <= 1)%nat /\
     (forall i o,
        goroutines (run schedule (spawn outcomes app)) !! i = Some (AtLock, o) ->
        count_pc in_flight (goroutines (run schedule (spawn outcomes app))) = 1%nat ->
        sched i (run schedule (spawn outcomes app))
        = run schedule (spawn outcomes app)) /\
     (Forall (fun g => g.1 = Returned)
        (goroutines (run schedule (spawn outcomes app))) ->
      builds (trace (run schedule (spawn outcomes app))) = length outcomes)).
Proof.
  intros Hm. split; [|split].
  - intros Hb o. unfold buildAndRun, buildAndRunLocked. rewrite Hm. simpl. rewrite Hb.
    f_equal. f_equal. destruct app; simpl in *. now subst.
  - intros Hb o. now apply buildAndRun_cycle.
  - intros Hb outcomes schedule.
    pose proof (serialised_run schedule _ (serialised_spawn outcomes app Hm Hb))
      as (Hfl & Hpc & Hbu).
    set (sys := run schedule (spawn outcomes app)) in *.
    split; [|split].
    + rewrite Hfl. destruct (mutex (shared sys)); simpl; lia.
    + intros i o Hi Hone. unfold sched. rewrite Hi. simpl.
      rewrite Hone in Hfl. destruct (mutex (shared sys)); [reflexivity|discriminate].
    + intros Hall. rewrite Hbu. rewrite count_pc_all.
      * subst sys. rewrite run_length. unfold spawn. simpl. apply length_map.
      * eapply Forall_impl; [exact Hall|]. intros g ->. reflexivity.
Qed.

(** One call alone, and the two calls of [both_returned]. *)
Lemma two_calls_two_builds :
  mutex app_running_100 = false /\
  (exists app' tr, buildAndRun first_call app_running_100 = Some (app', tr) /\
                   building app' = false /\ mutex app' = false /\ builds tr = 1%nat) /\
  builds (trace both_returned) = 2%nat.
Proof.
  destruct (buildAndRun_cycles_are_serialised app_running_100 eq_refl) as (_ & Hone & Hmany).
  split; [reflexivity|]. split; [exact (Hone eq_refl first_call)|].
  destruct (Hmany eq_refl [first_call; second_call] [0; 0; 0; 1; 0; 1; 0; 1; 1; 1; 1; 1]%nat)
    as (_ & _ & Hall).
  apply Hall. repeat constructor.
Defined.

(** C2, where the code departs from it.  [buildAndRun] tests the flag to
    drop a call that arrives during a build, but it sets and clears the
    flag while it holds the mutex, so the test cannot succeed.  Two calls,
    the second arriving during the build of the first: while the first
    builds, flag and mutex are set and the second call cannot move (it has
    not returned); once both have returned the trace holds two builds, not
    one, the second cycle stopping the process the first one started. *)
Lemma concurrent_calls_build_twice :
  goroutines mid_build = [(AtBuild, first_call); (AtLock, second_call)] /\
  building (shared mid_build) = true /\
  mutex (shared mid_build) = true /\
  sched 1 mid_build = mid_build /\
  goroutines both_returned = [(Returned, first_call); (Returned, second_call)] /\
  builds (trace both_returned) = 2%nat /\
  List.filter (fun e => match e with
                        | RunBuild _ | SignalTERM _ | StartRun _ | Wait _ => true
                        | _ => false
                        end) (trace both_returned)
  = [SignalTERM 100; Wait 100; RunBuild "go build -o ./tmp/main ."; StartRun "./tmp/main";
     SignalTERM 101; Wait 101; RunBuild "go build -o ./tmp/main ."; StartRun "./tmp/main"].
Proof. repeat split; reflexivity. Qed.

(** ** C3: the debounce of [watchFiles] *)

Lemma builds_check l st : builds (applyAll checkUpd l st).2 = builds st.2.
Proof.
  revert st. induction l as [|[q t] l IH]; intros st; [reflexivity|].
  simpl. rewrite IH, checkUpd_out, builds_app.
  destruct (advanced _ _); simpl; unfold builds; simpl; lia.
Qed.

Lemma builds_checkForChanges root app : builds (checkForChanges root app).1.2 = 0%nat.
Proof.
  rewrite checkForChanges_out, builds_app, builds_check.
  destruct (walkError (config app) root); reflexivity.
Qed.

Lemma checkForChanges_flags root app :
  config (checkForChanges root app).1.1 = config app /\
  building (checkForChanges root app).1.1 = building app /\
  mutex (checkForChanges root app).1.1 = mutex app.
Proof.
  rewrite checkForChanges_app.
  destruct (check_rest (visited (config app) "." root).1 (app, false, []))
    as (H1 & _ & H3 & H4). auto.
Qed.













(** ** C9 and C10: the detected project layout *)

Lemma Join_cmd_main (name : string) :
  Join (Join "cmd" name) "main.go" = "cmd/" +:+ name +:+ "/main.go".
Proof. reflexivity. Qed.

Lemma firstCmdMain_first fs before entry after :
  (forall x, In x before -> cmdMain fs x = false) ->
  cmdMain fs entry = true ->
  firstCmdMain fs (before ++ entry :: after)
  = Some ("go build -o ./tmp/main ./cmd/" +:+ Name entry,
          "Standard layout (cmd/" +:+ Name entry +:+ "/)").
Proof.
  unfold cmdMain. intros Hbefore He.
  induction before as [|x before IH]; simpl.
  - rewrite Join_cmd_main. apply andb_true_iff in He as [-> ->]. reflexivity.
  - rewrite Join_cmd_main.
    pose proof (Hbefore x (or_introl eq_refl)) as Hx.
    assert (Hrest : forall y, In y before ->
              EntryIsDir y && Stat fs ("cmd/" +:+ Name y +:+ "/main.go") = false).
    { intros y Hy. apply Hbefore. now right. }
    destruct (EntryIsDir x); simpl in Hx; [rewrite Hx|]; now apply IH.
Qed.

Lemma firstCmdMain_none fs entries :
  (forall x, In x entries -> cmdMain fs x = false) -> firstCmdMain fs entries = None.
Proof.
  unfold cmdMain. induction entries as [|x l IH]; intros H; [reflexivity|]. simpl.
  rewrite Join_cmd_main. pose proof (H x (or_introl eq_refl)) as Hx.
  assert (Hrest : forall y, In y l ->
            EntryIsDir y && Stat fs ("cmd/" +:+ Name y +:+ "/main.go") = false).
  { intros y Hy. apply H. now right. }
  destruct (EntryIsDir x); simpl in Hx; [rewrite Hx|]; now apply IH.
Qed.

Lemma firstCmdMain_prefix fs entries r :
  firstCmdMain fs entries = Some r -> exists target, r.1 = buildPrefix +:+ target.
Proof.
  induction entries as [|x l IH]; simpl; [discriminate|].
  destruct (EntryIsDir x); [|exact IH].
  destruct (Stat fs _); [|exact IH].
  intros H. injection H as <-. simpl. eauto.
Qed.

(** C9.  [detectProjectStructure] takes [cmd/api/main.go] if it exists;
    otherwise [cmd/main.go]; otherwise [main.go] in the root; otherwise the
    first entry of [cmd], in the order of the listing, that is a directory
    with a [main.go]; and otherwise, also when [cmd] cannot be listed, the
    current directory, each with its build command and label. *)
Theorem detectProjectStructure_order (fs : FileSystem) :
  (Stat fs "cmd/api/main.go" = true ->
   detectProjectStructure fs
   = ("go build -o ./tmp/main ./cmd/api", "Standard layout (cmd/api/)")) /\
  (Stat fs "cmd/api/main.go" = false -> Stat fs "cmd/main.go" = true ->
   detectProjectStructure fs
   = ("go build -o ./tmp/main ./cmd", "Standard layout (cmd/)")) /\
  (Stat fs "cmd/api/main.go" = false -> Stat fs "cmd/main.go" = false ->
   Stat fs "main.go" = true ->
   detectProjectStructure fs
   = ("go build -o ./tmp/main .", "Simple layout (root main.go)")) /\
  (Stat fs "cmd/api/main.go" = false -> Stat fs "cmd/main.go" = false ->
   Stat fs "main.go" = false ->
   forall before entry after,
     ReadDir fs "cmd" = Some (before ++ entry :: after) ->
     (forall x, In x before -> cmdMain fs x = false) ->
     cmdMain fs entry = true ->
     detectProjectStructure fs
     = ("go build -o ./tmp/main ./cmd/" +:+ Name entry,
        "Standard layout (cmd/" +:+ Name entry +:+ "/)")) /\
  (Stat fs "cmd/api/main.go" = false -> Stat fs "cmd/main.go" = false ->
   Stat fs "main.go" = false ->
   (ReadDir fs "cmd" = None \/
    exists entries, ReadDir fs "cmd" = Some entries /\
                    forall x, In x entries -> cmdMain fs x = false) ->
   detectProjectStructure fs
   = ("go build -o ./tmp/main .", "Fallback (current directory)")).
Proof.
  unfold detectProjectStructure. repeat split.
  - now intros ->.
  - now intros -> ->.
  - now intros -> -> ->.
  - intros -> -> -> before entry after -> Hbefore He.
    now rewrite (firstCmdMain_first fs before entry after Hbefore He).
  - intros -> -> -> [->|(entries & -> & Hnone)]; [reflexivity|].
    now rewrite (firstCmdMain_none fs entries Hnone).
Qed.

Lemma first_cmd_subdirectory_wins :
  Stat fs_two_commands "cmd/api/main.go" = false /\
  detectProjectStructure fs_two_commands
  = ("go build -o ./tmp/main ./cmd/web", "Standard layout (cmd/web/)").
Proof.
  split; [reflexivity|].
  destruct (detectProjectStructure_order fs_two_commands) as (_ & _ & _ & H & _).
  apply (H eq_refl eq_refl eq_refl [mkEntry "README" false] (mkEntry "web" true)
           [mkEntry "worker" true] eq_refl); [|reflexivity].
  intros x [<-|[]]. reflexivity.
Defined.

(** C10.  Whatever the file system holds, the detected build command is
    [go build -o] with the run command [./tmp/main] as its output file,
    followed by the package to build; and the path that [cleanup] removes
    has the same elements as the run command, so all three name one
    file. *)
Theorem build_output_is_run_binary (fs : FileSystem) :
  (exists target,
     BuildCmd (runWatcherConfig fs)
     = "go build -o " +:+ RunCmd (runWatcherConfig fs) +:+ " " +:+ target) /\
  RunCmd (runWatcherConfig fs) = "./tmp/main" /\
  elements (RunCmd (runWatcherConfig fs)) = elements cleanupPath /\
  (forall sigErr app,
     (cleanup sigErr true app).2 = (stopProcess sigErr app).2 ++ [Remove cleanupPath]).
Proof.
  split; [|split; [reflexivity|split; [reflexivity|]]].
  - unfold runWatcherConfig, detectProjectStructure. simpl.
    destruct (Stat fs "cmd/api/main.go"); [now exists "./cmd/api"|].
    destruct (Stat fs "cmd/main.go"); [now exists "./cmd"|].
    destruct (Stat fs "main.go"); [now exists "."|].
    destruct (ReadDir fs "cmd") as [entries|]; [|now exists "."].
    destruct (firstCmdMain fs entries) as [r|] eqn:E; [|now exists "."].
    apply firstCmdMain_prefix in E as [target ->]. now exists target.
  - intros sigErr app. unfold cleanup. now destruct (stopProcess sigErr app).
Qed.


(** * Further properties of the code *)

(** ** Scanning *)

Lemma scan_size l app :
  NoDup (map fst l) ->
  (forall p, In p (map fst l) -> fileStates app !! p = None) ->
  size (fileStates (applyAll scanUpd l app)) = (size (fileStates app) + length l)%nat.
Proof.
  revert app. induction l as [|[q t] l IH]; intros app Hnd Hnew; simpl; [lia|].
  apply NoDup_cons in Hnd as [Hq Hnd]. rewrite IH; [|exact Hnd|].
  - simpl. rewrite map_size_insert_None; [lia|]. apply Hnew. now left.
  - intros p Hp. simpl. rewrite lookup_insert_ne.
    + apply Hnew. now right.
    + intros ->. apply Hq. now rewrite list_elem_of_In.
Qed.

(** X1.  The first scan, from the empty index, of a well-formed tree that
    can be walked to its end: the index holds exactly the eligible files
    of the tree, each with its modification time, and as many entries as
    there are such files. *)
Theorem first_scan_is_exact (root : fsnode) (app : WindApp) :
  wf_tree root = true ->
  excluded (config app) "." = false ->
  walkError (config app) root = None ->
  fileStates app = ∅ ->
  (forall p t,
     fileStates (scanFiles root app).1 !! p = Some t <->
     In (p, t) (all_files "." root) /\ eligible (config app) p = true) /\
  size (fileStates (scanFiles root app).1)
  = length (List.filter (fun x => eligible (config app) x.1) (all_files "." root)).
Proof.
  intros Hwf Hroot Hok Hempty. rewrite scanFiles_visited. simpl.
  pose proof (visited_NoDup (config app) root Hwf ".") as Hnd.
  pose proof (fun x => visited_iff (config app) root x Hroot Hok) as Hvis.
  split.
  - intros p t. rewrite <- (Hvis (p, t)). split.
    + intros Hl.
      destruct (in_dec string_dec p (map fst (visited (config app) "." root).1))
        as [Hin|Hnin].
      * apply in_map_iff in Hin as ([q u] & <- & Hx). simpl in *.
        rewrite (scan_touched _ app q u Hnd Hx) in Hl. now injection Hl as ->.
      * rewrite (scan_untouched _ app p Hnin), Hempty, lookup_empty in Hl.
        discriminate.
    + intros Hx. now apply scan_touched.
  - rewrite scan_size; [|exact Hnd|].
    + rewrite Hempty, map_size_empty.
      rewrite (visited_complete (config app) root ".");
        [reflexivity | now right | now apply walkError_None_ok].
    + intros p _. now rewrite Hempty, lookup_empty.
Qed.

Lemma first_scan_of_touched_tree :
  wf_tree tree_touched = true /\
  size (fileStates (scanFiles tree_touched (newApp (config app_tracking_main))).1) = 2%nat.
Proof.
  split; [reflexivity|].
  destruct (first_scan_is_exact tree_touched (newApp (config app_tracking_main))
              eq_refl eq_refl eq_refl eq_refl) as [_ ->].
  reflexivity.
Defined.

Lemma scan_lookup_indep l a b p :
  In p (map fst l) ->
  fileStates (applyAll scanUpd l a) !! p = fileStates (applyAll scanUpd l b) !! p.
Proof.
  revert a b. induction l as [|[q t] l IH]; intros a b Hp; [destruct Hp|].
  simpl. destruct (in_dec string_dec p (map fst l)) as [Hin|Hnin].
  - now apply IH.
  - destruct Hp as [Hp|Hp]; [|contradiction]. simpl in Hp. subst q.
    rewrite !scan_untouched by assumption. simpl. now rewrite !lookup_insert_eq.
Qed.

(** X2.  [scanFiles] is idempotent: a second scan of the same tree leaves
    the state of the first and returns the same error, for every tree and
    every index. *)
Theorem scanFiles_idempotent (root : fsnode) (app : WindApp) :
  scanFiles root (scanFiles root app).1 = scanFiles root app.
Proof.
  rewrite (scanFiles_visited root (scanFiles root app).1).
  rewrite (scanFiles_visited root app). simpl.
  set (l := (visited (config app) "." root).1).
  destruct (scan_rest l app) as (Hc & Hp & Hb & Hm). rewrite Hc. fold l.
  f_equal.
  destruct (scan_rest l (applyAll scanUpd l app)) as (Hc' & Hp' & Hb' & Hm').
  apply WindApp_eq; try congruence.
  apply map_eq. intros i.
  destruct (in_dec string_dec i (map fst l)) as [Hin|Hnin].
  - now apply scan_lookup_indep.
  - now rewrite scan_untouched.
Qed.

(** X3.  A scan followed by a check of the same tree (a well-formed one
    that can be walked to its end) reports no change, prints nothing and
    leaves the state of the scan. *)
Theorem check_after_scan_is_quiet (root : fsnode) (app : WindApp) :
  wf_tree root = true ->
  walkError (config app) root = None ->
  checkForChanges root (scanFiles root app).1 = ((scanFiles root app).1, [], false).
Proof.
  intros Hwf Hok. rewrite checkForChanges_visited.
  rewrite scanFiles_visited. simpl.
  pose proof (visited_NoDup (config app) root Hwf ".") as Hnd.
  set (l := (visited (config app) "." root).1) in *.
  destruct (scan_rest l app) as (Hc & _). rewrite Hc, Hok. fold l.
  rewrite check_settled; [reflexivity|].
  intros [p t] Hx. unfold advanced. simpl.
  rewrite (scan_touched l app p t Hnd Hx). split; [lia | eauto].
Qed.

Lemma check_after_scan_of_touched_tree :
  wf_tree tree_touched = true /\
  (checkForChanges tree_touched (scanFiles tree_touched app_tracking_main).1).2 = false.
Proof.
  split; [reflexivity|].
  now rewrite (check_after_scan_is_quiet tree_touched app_tracking_main eq_refl eq_refl).
Defined.

Lemma check_monotone l st p t0 :
  fileStates st.1.1 !! p = Some t0 ->
  exists t1, fileStates (applyAll checkUpd l st).1.1 !! p = Some t1 /\ t0 <= t1.
Proof.
  revert st t0. induction l as [|[q t] l IH]; intros st t0 H; simpl.
  - exists t0. split; [exact H | lia].
  - assert (H1 : exists t', fileStates (checkUpd q t st).1.1 !! p = Some t' /\ t0 <= t').
    { rewrite checkUpd_fileStates. destruct (decide (q = p)) as [->|Hne].
      - rewrite lookup_insert_eq, H. simpl. eexists. split; [reflexivity|].
        destruct (t0 <? t) eqn:E; lia.
      - rewrite lookup_insert_ne by assumption. exists t0. split; [exact H | lia]. }
    destruct H1 as (t' & H1 & Hle). destruct (IH _ _ H1) as (t1 & H2 & Hle').
    exists t1. split; [exact H2 | lia].
Qed.

(** X4.  [checkForChanges] never removes a key and never moves a stored
    time backwards, whatever the tree and whether or not the walk
    fails. *)
Theorem checkForChanges_times_never_decrease
  (root : fsnode) (app : WindApp) (p : string) (lastMod : Z) :
  fileStates app !! p = Some lastMod ->
  exists t, fileStates (checkForChanges root app).1.1 !! p = Some t /\ lastMod <= t.
Proof.
  intros H. rewrite checkForChanges_app.
  now apply (check_monotone _ (app, false, [])).
Qed.

Lemma stored_time_survives_older_file :
  fileStates app_with_later_time !! "main.go" = Some 10 /\
  exists t, fileStates (checkForChanges tree_main_only app_with_later_time).1.1
              !! "main.go" = Some t /\ 10 <= t.
Proof.
  split; [reflexivity|].
  exact (checkForChanges_times_never_decrease tree_main_only app_with_later_time
           "main.go" 10 eq_refl).
Defined.

(** X5.  What a completed check of a well-formed tree prints: one line for
    each eligible file whose time is after the stored one, in the order of
    the walk, each file once; and it returns true exactly when it printed
    such a line. *)
Theorem checkForChanges_prints_each_change_once (root : fsnode) (app : WindApp) :
  wf_tree root = true ->
  excluded (config app) "." = false ->
  walkError (config app) root = None ->
  (checkForChanges root app).1.2
  = map (fun x => PrintFileChanged x.1)
      (List.filter (advanced (fileStates app))
         (List.filter (fun x => eligible (config app) x.1) (all_files "." root))) /\
  ((checkForChanges root app).2 = true <-> (checkForChanges root app).1.2 <> []).
Proof.
  intros Hwf Hroot Hok.
  pose proof (visited_NoDup (config app) root Hwf ".") as Hnd.
  assert (Hout : (checkForChanges root app).1.2
    = map (fun x => PrintFileChanged x.1)
        (List.filter (advanced (fileStates app))
           (List.filter (fun x => eligible (config app) x.1) (all_files "." root)))).
  { rewrite checkForChanges_out, Hok, app_nil_r, check_out by exact Hnd. simpl.
    rewrite (visited_complete (config app) root ".");
      [reflexivity | now right | now apply walkError_None_ok]. }
  split; [exact Hout|].
  rewrite Hout, checkForChanges_changed, check_changed by exact Hnd. simpl.
  rewrite (visited_complete (config app) root ".");
    [| now right | now apply walkError_None_ok].
  set (l := List.filter (fun x => eligible (config app) x.1) (all_files "." root)).
  induction l as [|x l IH]; simpl; [split; [discriminate | congruence]|].
  destruct (advanced (fileStates app) x); simpl; [|exact IH].
  split; [discriminate | reflexivity].
Qed.

Lemma touched_tree_prints_main_go :
  wf_tree tree_touched = true /\
  (checkForChanges tree_touched app_tracking_main).1.2 = [PrintFileChanged "main.go"].
Proof.
  split; [reflexivity|].
  destruct (checkForChanges_prints_each_change_once tree_touched app_tracking_main
              eq_refl eq_refl eq_refl) as [-> _].
  reflexivity.
Defined.

(** X6.  Neither scan touches anything but the index: the configuration,
    the process handle, the flag and the mutex are as before, whatever
    the tree. *)
Theorem scans_only_touch_the_index (root : fsnode) (app : WindApp) :
  (config (scanFiles root app).1 = config app /\
   process (scanFiles root app).1 = process app /\
   building (scanFiles root app).1 = building app /\
   mutex (scanFiles root app).1 = mutex app) /\
  (config (checkForChanges root app).1.1 = config app /\
   process (checkForChanges root app).1.1 = process app /\
   building (checkForChanges root app).1.1 = building app /\
   mutex (checkForChanges root app).1.1 = mutex app).
Proof.
  split.
  - rewrite scanFiles_visited. apply scan_rest.
  - rewrite checkForChanges_app. apply (check_rest _ (app, false, [])).
Qed.

(** ** The watch filter *)

Lemma list_ascii_app (a b : string) :
  list_ascii_of_string (a +:+ b) = list_ascii_of_string a ++ list_ascii_of_string b.
Proof.
  induction a as [|c a IH]; unfold_append; simpl; [reflexivity | now f_equal].
Qed.

(** The loop of [Ext] runs over a tail without dot and separator and
    collects it. *)
Lemma ext_loop_plain (s : string) : forall before acc,
  plain s = true ->
  ext_loop (rev (list_ascii_of_string s) ++ before) acc = ext_loop before (s +:+ acc).
Proof.
  induction s as [|c s IH]; intros before acc Hp; [reflexivity|].
  unfold plain in Hp. simpl in Hp. apply andb_true_iff in Hp as [Hc Hs].
  apply andb_true_iff in Hc as [Hc1 Hc2].
  simpl. rewrite <- app_assoc. rewrite (IH _ _ Hs). simpl.
  apply negb_true_iff in Hc1, Hc2. rewrite Hc1, Hc2.
  reflexivity.
Qed.

(** The loop of [Ext] stops at the last separator. *)
Lemma ext_loop_stops_at_slash (l : list ascii) : forall before acc,
  forallb (fun c => negb (Ascii.eqb c slash)) l = true ->
  ext_loop (l ++ slash :: before) acc = ext_loop l acc.
Proof.
  induction l as [|c l IH]; intros before acc H; [reflexivity|].
  simpl in *. apply andb_true_iff in H as [Hc Hl]. apply negb_true_iff in Hc.
  rewrite Hc. destruct (Ascii.eqb c dot); [reflexivity | now apply IH].
Qed.

(** X7.  [shouldWatch] accepts every path that ends in an included
    extension made of a dot and characters other than dot and separator,
    whatever comes before it; and for a path with a directory part it
    answers as for the last element alone. *)
Theorem shouldWatch_by_last_extension (cfg : WindConfig) :
  (forall base ext,
     In (String dot ext) (IncludeExts cfg) -> plain ext = true ->
     shouldWatch cfg (base +:+ String dot ext) = true) /\
  (forall dir name,
     slashfree name = true ->
     shouldWatch cfg (dir +:+ "/" +:+ name) = shouldWatch cfg name).
Proof.
  split.
  - intros base ext Hin Hp. unfold shouldWatch, Ext.
    rewrite list_ascii_app. simpl. rewrite rev_app_distr. simpl.
    rewrite <- app_assoc. rewrite ext_loop_plain by assumption. simpl.
    rewrite append_nil_r. apply existsb_exists.
    exists (String dot ext). split; [assumption | apply String.eqb_refl].
  - intros dir name Hn. unfold shouldWatch, Ext.
    rewrite list_ascii_app. unfold_append. simpl.
    rewrite rev_app_distr. simpl. rewrite <- app_assoc. simpl.
    rewrite ext_loop_stops_at_slash; [reflexivity|].
    unfold slashfree in Hn. rewrite forallb_forall in *.
    intros c Hc. apply Hn. now apply in_rev.
Qed.

Lemma nested_handler_is_watched :
  In ".go" (IncludeExts (defaultConfig "")) /\ plain "go" = true /\
  shouldWatch (defaultConfig "") "internal/http/handler.v2.go" = true.
Proof.
  split; [simpl; auto|]. split; [reflexivity|].
  apply (proj1 (shouldWatch_by_last_extension (defaultConfig ""))
           "internal/http/handler.v2" "go"); [simpl; auto | reflexivity].
Defined.

Lemma HasPrefix_iff (s pre : string) :
  HasPrefix s pre = true <-> exists b, s = pre +:+ b.
Proof.
  revert s. induction pre as [|a pre IH]; intros s; simpl.
  - split; [intros _; now exists s | reflexivity].
  - destruct s as [|c s].
    + split; [discriminate|]. intros [b H]. unfold_append_in H. discriminate.
    + destruct (Ascii.eqb_spec a c) as [->|Hne].
      * rewrite IH. split; intros [b H]; exists b.
        -- unfold_append. now f_equal.
        -- unfold_append_in H. now injection H.
      * split; [discriminate|]. intros [b H]. unfold_append_in H. congruence.
Qed.

Lemma Contains_iff (s sub : string) :
  Contains s sub = true <-> exists a b, s = a +:+ sub +:+ b.
Proof.
  induction s as [|c s IH]; simpl.
  - rewrite orb_false_r, HasPrefix_iff. split.
    + intros [b H]. now exists "", b.
    + intros (a & b & H). destruct a; unfold_append_in H; [eauto | discriminate].
  - rewrite orb_true_iff, HasPrefix_iff, IH. split.
    + intros [[b H]|(a & b & H)].
      * now exists "", b.
      * exists (String c a), b. unfold_append. now f_equal.
    + intros (a & b & H). destruct a as [|d a]; unfold_append_in H.
      * left. eauto.
      * right. injection H as -> H. eauto.
Qed.

(** X8.  A path is excluded exactly when some fragment of [ExcludeDirs]
    occurs anywhere in it, also inside a file name; and neither scan ever
    changes the index at a path built around a fragment. *)
Theorem exclusion_is_by_substring (app : WindApp) :
  (forall p, excluded (config app) p = true <->
             exists fragment a b,
               In fragment (ExcludeDirs (config app)) /\ p = a +:+ fragment +:+ b) /\
  (forall fragment a b root,
     In fragment (ExcludeDirs (config app)) ->
     fileStates (scanFiles root app).1 !! (a +:+ fragment +:+ b)
     = fileStates app !! (a +:+ fragment +:+ b) /\
     fileStates (checkForChanges root app).1.1 !! (a +:+ fragment +:+ b)
     = fileStates app !! (a +:+ fragment +:+ b)).
Proof.
  assert (Hiff : forall p, excluded (config app) p = true <->
             exists fragment a b,
               In fragment (ExcludeDirs (config app)) /\ p = a +:+ fragment +:+ b).
  { intros p. unfold excluded. rewrite existsb_exists. split.
    - intros (f & Hin & Hc). apply Contains_iff in Hc as (a & b & ->). eauto.
    - intros (f & a & b & Hin & ->). exists f. split; [assumption|].
      apply Contains_iff. eauto. }
  split; [exact Hiff|].
  intros fragment a b root Hin.
  assert (He : excluded (config app) (a +:+ fragment +:+ b) = true).
  { apply Hiff. eauto. }
  pose proof (visited_not_excluded (config app) root _ He) as Hnot. split.
  - rewrite scanFiles_visited. now apply scan_untouched.
  - rewrite checkForChanges_app. now apply (check_untouched _ (app, false, [])).
Qed.

Lemma file_named_like_a_fragment_is_ignored :
  In "tmp" (ExcludeDirs (config app_tracking_main)) /\
  fileStates (scanFiles (Dir [("tmpl.go", File 7)]) app_tracking_main).1 !! "tmpl.go"
  = None.
Proof.
  split; [simpl; auto|].
  destruct (proj2 (exclusion_is_by_substring app_tracking_main)
              "tmp" "" "l.go" (Dir [("tmpl.go", File 7)])) as [H _];
    [simpl; auto|].
  exact H.
Defined.

(** X9.  When the path of the root itself is excluded (a fragment that is
    empty, or a single dot), a scan of the working directory visits
    nothing: the state stays as it is, nothing is printed or reported, and
    no error is returned even if entries cannot be read. *)
Theorem excluded_root_scans_nothing (app : WindApp) (entries : list (string * fsnode)) :
  excluded (config app) "." = true ->
  scanFiles (Dir entries) app = (app, None) /\
  checkForChanges (Dir entries) app = (app, [], false).
Proof.
  intros He. rewrite scanFiles_visited, checkForChanges_visited.
  unfold walkError. rewrite visited_Dir, He. auto.
Qed.

Lemma empty_fragment_scans_nothing :
  excluded config_excluding_all "." = true /\
  scanFiles tree_pkg_unreadable (newApp config_excluding_all)
  = (newApp config_excluding_all, None).
Proof.
  split; [reflexivity|].
  exact (proj1 (excluded_root_scans_nothing (newApp config_excluding_all) _ eq_refl)).
Defined.

(** ** One build-and-run cycle *)

Lemma stopProcess_trace_flags sigErr app b m :
  (stopProcess sigErr (set_building (set_mutex app m) b)).2 = (stopProcess sigErr app).2.
Proof. unfold stopProcess. simpl. now destruct (process app). Qed.

(** X10.  A cycle entered with the flag clear first stops the process that
    is running (if any), waiting for it, then runs the build command, and
    only after a successful build starts the run command; nothing is
    signalled, killed, waited for or built after the build command. *)
Theorem buildAndRun_stops_then_builds_then_starts (o : CycleOutcome) (app : WindApp) :
  mutex app = false ->
  building app = false ->
  exists app' rest,
    buildAndRun o app
    = Some (app', (stopProcess (signalErr o) app).2
                  ++ [PrintBuilding; RunBuild (BuildCmd (config app))] ++ rest) /\
    List.filter is_process_call rest
    = match buildErr o with
      | None => [StartRun (RunCmd (config app))]
      | Some _ => []
      end.
Proof.
  intros Hm Hb. unfold buildAndRun, buildAndRunLocked. rewrite Hm. simpl. rewrite Hb.
  pose proof (stopProcess_trace_flags (signalErr o) app true true) as Hs.
  destruct (stopProcess_flags (signalErr o) (set_building (set_mutex app true) true))
    as (_ & _ & Hc & _).
  destruct (stopProcess (signalErr o) (set_building (set_mutex app true) true))
    as [app1 stopped]. simpl in Hs, Hc. subst stopped. rewrite Hc.
  destruct (buildErr o) as [err|]; [|destruct (startRes o) as [err|pid]];
    eexists _, _; (split; [reflexivity|]); reflexivity.
Qed.

Lemma rebuild_waits_for_the_old_process :
  mutex app_running_100 = false /\
  exists app' tr,
    buildAndRun first_call app_running_100 = Some (app', tr) /\
    List.filter is_process_call tr
    = [SignalTERM 100; Wait 100; RunBuild "go build -o ./tmp/main ."; StartRun "./tmp/main"].
Proof.
  split; [reflexivity|].
  destruct (buildAndRun_stops_then_builds_then_starts first_call app_running_100
              eq_refl eq_refl) as (app' & rest & H & Hrest).
  eexists app', _. split; [exact H|].
  rewrite !List.filter_app, Hrest. reflexivity.
Defined.

(** X11.  After a cycle entered with the flag clear the process handle is
    the started process when build and start both succeeded and nil
    otherwise, also when a process was running before; the index and the
    configuration are untouched. *)
Theorem buildAndRun_leaves_started_process_or_none (o : CycleOutcome) (app : WindApp) :
  mutex app = false ->
  building app = false ->
  exists app' tr,
    buildAndRun o app = Some (app', tr) /\
    process app' = match buildErr o, startRes o with
                   | None, inr pid => Some pid
                   | _, _ => None
                   end /\
    fileStates app' = fileStates app /\
    config app' = config app.
Proof.
  intros Hm Hb. unfold buildAndRun, buildAndRunLocked. rewrite Hm. simpl. rewrite Hb.
  assert (Hp : process (stopProcess (signalErr o)
                          (set_building (set_mutex app true) true)).1 = None).
  { unfold stopProcess. simpl. destruct (process app) eqn:E; simpl; [reflexivity | exact E]. }
  destruct (stopProcess_flags (signalErr o) (set_building (set_mutex app true) true))
    as (_ & _ & Hc & Hf).
  destruct (stopProcess (signalErr o) (set_building (set_mutex app true) true))
    as [app1 stopped]. simpl in *.
  destruct (buildErr o) as [err|]; [|destruct (startRes o) as [err|pid]];
    eexists _, _; (split; [reflexivity|]); simpl; auto.
Qed.

Lemma failed_build_leaves_no_process :
  mutex app_running_100 = false /\
  exists app' tr,
    buildAndRun (mkOutcome None (Some "exit status 1") (inr 7)) app_running_100
    = Some (app', tr) /\ process app' = None.
Proof.
  split; [reflexivity|].
  destruct (buildAndRun_leaves_started_process_or_none
              (mkOutcome None (Some "exit status 1") (inr 7)) app_running_100
              eq_refl eq_refl) as (app' & tr & H & Hp & _).
  exists app', tr. split; [exact H | exact Hp].
Defined.

(** ** The watch loop *)

Lemma handle_continues ev w :
  is_stop ev = false -> mutex (wapp w) = false -> building (wapp w) = false ->
  exists w' tr, handle ev w = Continue w' tr /\
                mutex (wapp w') = false /\ building (wapp w') = false.
Proof.
  intros Hev Hm Hb. destruct ev as [|now root|o]; [discriminate| |]; simpl.
  - destruct (checkForChanges_flags root (wapp w)) as (_ & Hb' & Hm').
    destruct (checkForChanges root (wapp w)) as [[app' out] changed]. simpl in *.
    destruct (changed && negb (hasChanges w)); eexists _, _;
      (split; [reflexivity|]); simpl; split; congruence.
  - destruct (hasChanges w).
    + destruct (buildAndRun_cycle o (wapp w) Hm Hb) as (app' & tr & -> & Hb' & Hm' & _).
      eexists _, _. split; [reflexivity|]. auto.
    + eexists _, _. split; [reflexivity|]. auto.
Qed.

(** X12.  No event but the closing of [stopChan] ends the loop, whatever
    builds, starts and scans fail: from a state with mutex and flag clear
    (as at start up) the loop handles a sequence of such events to its end
    and goes on with the next ones. *)
Theorem watchLoop_goes_on (evs1 evs2 : list Event) (w : Watch) (tr : list Effect) :
  forallb (fun ev => negb (is_stop ev)) evs1 = true ->
  mutex (wapp w) = false ->
  building (wapp w) = false ->
  watchLoop (evs1 ++ evs2) w tr
  = watchLoop evs2 (watchLoop evs1 w tr).1 (watchLoop evs1 w tr).2 /\
  mutex (wapp (watchLoop evs1 w tr).1) = false /\
  building (wapp (watchLoop evs1 w tr).1) = false.
Proof.
  revert w tr. induction evs1 as [|ev evs1 IH]; intros w tr Hns Hm Hb; [simpl; auto|].
  simpl in Hns. apply andb_true_iff in Hns as [Hev Hns]. apply negb_true_iff in Hev.
  destruct (handle_continues ev w Hev Hm Hb) as (w' & tr' & He & Hm' & Hb').
  simpl. rewrite He. now apply IH.
Qed.

Lemma failed_cycles_do_not_end_the_loop :
  mutex (wapp idle_watch) = false /\
  hasChanges (watchLoop
    ([EvTick 1000 (abc_tree 2 1 1);
      EvDebounce (mkOutcome None (Some "exit status 1") (inr 7))]
     ++ [EvTick 1100 (abc_tree 2 2 1)]) idle_watch []).1 = true.
Proof.
  split; [reflexivity|].
  destruct (watchLoop_goes_on
              [EvTick 1000 (abc_tree 2 1 1);
               EvDebounce (mkOutcome None (Some "exit status 1") (inr 7))]
              [EvTick 1100 (abc_tree 2 2 1)] idle_watch [] eq_refl eq_refl eq_refl)
    as (-> & _). reflexivity.
Defined.

(** X13.  Once [stopChan] is closed and seen by the loop nothing more
    happens: events after it are not handled, so nothing is scanned or
    built after the stop. *)
Theorem watchLoop_stop_is_final (evs1 evs2 : list Event) (w : Watch) (tr : list Effect) :
  watchLoop (evs1 ++ EvStop :: evs2) w tr = watchLoop evs1 w tr.
Proof.
  revert w tr. induction evs1 as [|ev evs1 IH]; intros w tr; [reflexivity|].
  simpl. destruct (handle ev w); [reflexivity..|apply IH].
Qed.

Lemma handle_armed_iff_pending ev w w' tr :
  armed_iff_pending w -> handle ev w = Continue w' tr -> armed_iff_pending w'.
Proof.
  unfold armed_iff_pending. intros Hinv.
  destruct ev as [|now root|o]; simpl; [discriminate| |].
  - destruct (checkForChanges root (wapp w)) as [[app' out] changed].
    destruct (changed && negb (hasChanges w)); intros H; injection H as <- _; simpl.
    + split; eauto.
    + exact Hinv.
  - destruct (hasChanges w) eqn:Ep.
    + destruct (buildAndRun o (wapp w)) as [[app' tr']|]; [|discriminate].
      intros H; injection H as <- _; simpl. split; [discriminate | intros [x Hx]; discriminate].
    + intros H; injection H as <- _; simpl.
      split; [discriminate | intros [x Hx]; discriminate].
Qed.

Lemma watchLoop_armed_iff_pending evs : forall w tr,
  armed_iff_pending w -> armed_iff_pending (watchLoop evs w tr).1.
Proof.
  induction evs as [|ev evs IH]; intros w tr Hinv; [exact Hinv|].
  simpl. destruct (handle ev w) as [| |w' tr'] eqn:E; [exact Hinv..|].
  apply IH. now apply (handle_armed_iff_pending ev w w' tr').
Qed.

(** X14.  Throughout a run of [watchFiles] the debounce timer is armed
    exactly while a change is pending; so whenever the timer can deliver,
    the loop finds the flag set and the event starts a cycle. *)
Theorem timer_armed_iff_change_pending (evs : list Event) (app : WindApp) :
  (hasChanges (watchFiles evs app).1 = true <-> is_Some (debounce (watchFiles evs app).1)) /\
  (forall t, fires t (watchFiles evs app).1 = true ->
             hasChanges (watchFiles evs app).1 = true).
Proof.
  assert (H : armed_iff_pending (watchFiles evs app).1).
  { apply watchLoop_armed_iff_pending. unfold armed_iff_pending. simpl.
    split; [discriminate | intros [x Hx]; discriminate]. }
  split; [exact H|].
  intros t Hf. apply H. unfold fires in Hf.
  destruct (debounce (watchFiles evs app).1); [eauto | discriminate].
Qed.

Lemma armed_timer_finds_pending_change :
  fires 1300 (watchFiles [EvTick 1000 (abc_tree 2 1 1)] (wapp idle_watch)).1 = true /\
  hasChanges (watchFiles [EvTick 1000 (abc_tree 2 1 1)] (wapp idle_watch)).1 = true.
Proof.
  split; [reflexivity|].
  exact (proj2 (timer_armed_iff_change_pending [EvTick 1000 (abc_tree 2 1 1)]
                  (wapp idle_watch)) 1300 eq_refl).
Defined.

Lemma buildAndRun_builds_le o app app' tr :
  buildAndRun o app = Some (app', tr) -> (builds tr <= 1)%nat.
Proof.
  unfold buildAndRun, buildAndRunLocked. destruct (mutex app); [discriminate|]. simpl.
  destruct (building app).
  - intros H. injection H as _ <-. unfold builds. simpl. lia.
  - pose proof (builds_stopProcess (signalErr o)
                  (set_building (set_mutex app true) true)) as Hs.
    destruct (stopProcess _ _) as [app1 stopped]. simpl in Hs.
    destruct (buildErr o) as [err|]; [|destruct (startRes o) as [err|pid]];
      intros H; injection H as _ <-; rewrite !builds_app, Hs; unfold builds; simpl; lia.
Qed.

Lemma watchLoop_builds_le evs : forall w tr,
  (builds (watchLoop evs w tr).2
   <= builds tr + length (List.filter is_debounce evs))%nat.
Proof.
  induction evs as [|ev evs IH]; intros w tr; [simpl; lia|].
  simpl. destruct (handle ev w) as [| |w' tr'] eqn:E; [simpl; lia..|].
  specialize (IH w' (tr ++ tr')). rewrite builds_app in IH.
  assert (Hle : (builds tr' <= length (List.filter is_debounce [ev]))%nat).
  { destruct ev as [|now root|o]; simpl in *; [discriminate| |].
    - pose proof (builds_checkForChanges root (wapp w)) as Hb.
      destruct (checkForChanges root (wapp w)) as [[app' out] changed]. simpl in Hb.
      destruct (changed && negb (hasChanges w)); injection E as _ <-; lia.
    - destruct (hasChanges w).
      + destruct (buildAndRun o (wapp w)) as [[app' tr'']|] eqn:Eb; [|discriminate].
        injection E as _ <-. now apply (buildAndRun_builds_le o (wapp w) app').
      + injection E as _ <-. unfold builds. simpl. lia. }
  simpl in Hle. destruct (is_debounce ev); simpl in *; lia.
Qed.

(** X15.  The loop builds only when the debounce timer delivers, at most
    once for each delivery: ticks alone, however many changes they see,
    never build. *)
Theorem watchFiles_builds_at_most_once_per_timer_event (evs : list Event) (app : WindApp) :
  (builds (watchFiles evs app).2 <= length (List.filter is_debounce evs))%nat.
Proof. apply (watchLoop_builds_le evs (mkWatch app false None) []). Qed.

(** ** Process generations *)

Lemma generations_app (a b : list Effect) (cur : option Z) :
  generations (a ++ b) cur
  = match generations a cur with
    | Some c => generations b c
    | None => None
    end.
Proof.
  revert cur. induction a as [|e a IH]; intros cur; [reflexivity|].
  destruct e; simpl; try apply IH. destruct cur; [reflexivity | apply IH].
Qed.

Lemma generations_quiet (tr : list Effect) (cur : option Z) :
  forallb quiet tr = true -> generations tr cur = Some cur.
Proof.
  induction tr as [|e tr IH]; intros H; [reflexivity|].
  simpl in H. apply andb_true_iff in H as [He H].
  destruct e; simpl in *; try discriminate; now apply IH.
Qed.

Lemma generations_stopProcess sigErr app :
  generations (stopProcess sigErr app).2 (process app) = Some None /\
  process (stopProcess sigErr app).1 = None.
Proof.
  unfold stopProcess. destruct (process app) as [pid|] eqn:E; simpl; [|auto].
  destruct sigErr; simpl; rewrite Z.eqb_refl; auto.
Qed.

Lemma generations_buildAndRun o app app' tr :
  buildAndRun o app = Some (app', tr) ->
  generations tr (process app) = Some (process app').
Proof.
  unfold buildAndRun, buildAndRunLocked. destruct (mutex app); [discriminate|]. simpl.
  destruct (building app).
  - intros H. injection H as <- <-. reflexivity.
  - pose proof (generations_stopProcess (signalErr o)
                  (set_building (set_mutex app true) true)) as [Hg Hp].
    destruct (stopProcess _ _) as [app1 stopped]. simpl in Hg, Hp.
    destruct (buildErr o) as [err|]; [|destruct (startRes o) as [err|pid]];
      intros H; injection H as <- <-; rewrite generations_app, Hg; simpl;
      now rewrite ?Hp.
Qed.

Lemma quiet_check l st :
  forallb quiet st.2 = true -> forallb quiet (applyAll checkUpd l st).2 = true.
Proof.
  revert st. induction l as [|[q t] l IH]; intros st H; [exact H|].
  simpl. apply IH. rewrite checkUpd_out, forallb_app, H.
  now destruct (advanced _ _).
Qed.

Lemma quiet_checkForChanges root app : forallb quiet (checkForChanges root app).1.2 = true.
Proof.
  rewrite checkForChanges_out, forallb_app.
  rewrite (quiet_check _ (app, false, [])) by reflexivity.
  now destruct (walkError (config app) root).
Qed.

Lemma generations_handle ev w w' tr :
  handle ev w = Continue w' tr ->
  generations tr (process (wapp w)) = Some (process (wapp w')).
Proof.
  destruct ev as [|now root|o]; simpl; [discriminate| |].
  - pose proof (quiet_checkForChanges root (wapp w)) as Hq.
    assert (Hp : process (checkForChanges root (wapp w)).1.1 = process (wapp w)).
    { rewrite checkForChanges_app. apply (check_rest _ (wapp w, false, [])). }
    destruct (checkForChanges root (wapp w)) as [[app' out] changed]. simpl in *.
    destruct (changed && negb (hasChanges w)); intros H; injection H as <- <-;
      simpl; rewrite Hp; now apply generations_quiet.
  - destruct (hasChanges w).
    + destruct (buildAndRun o (wapp w)) as [[app' tr']|] eqn:Eb; [|discriminate].
      intros H; injection H as <- <-. now apply (generations_buildAndRun o).
    + intros H; injection H as <- <-. reflexivity.
Qed.

Lemma generations_watchLoop evs : forall w tr cur,
  generations tr cur = Some (process (wapp w)) ->
  generations (watchLoop evs w tr).2 cur
  = Some (process (wapp (watchLoop evs w tr).1)).
Proof.
  induction evs as [|ev evs IH]; intros w tr cur H; [exact H|].
  simpl. destruct (handle ev w) as [| |w' tr'] eqn:E; [exact H..|].
  apply IH. rewrite generations_app, H. now apply (generations_handle ev).
Qed.

(** X16.  Along every run of the watch loop no two generations of the
    child process are alive together: each successful start happens with
    no process alive, the earlier one having been waited for, and the
    process alive at the end is the one the handle holds. *)
Theorem watchFiles_generations_never_overlap (evs : list Event) (app : WindApp) :
  generations (watchFiles evs app).2 (process app)
  = Some (process (wapp (watchFiles evs app).1)).
Proof. now apply generations_watchLoop. Qed.

(** ** Start-up and shutdown *)

Lemma effects_app (a b : list Output) : effects (a ++ b) = effects a ++ effects b.
Proof. unfold effects. apply flat_map_app. Qed.

Lemma effects_map (tr : list Effect) : effects (map OutEffect tr) = tr.
Proof. induction tr as [|e tr IH]; simpl; [reflexivity | now f_equal]. Qed.

(** What a run that got past [MkdirAll] does, piece by piece. *)
Lemma runWatcher_effects (w : World) :
  wMkdirErr w = None ->
  exists started app1 first watch watched,
    started = (scanFiles (wTree w) (newApp (runWatcherConfig (wFS w)))).1 /\
    buildAndRun (wFirst w) started = Some (app1, first) /\
    watchFiles (wEvents w) app1 = (watch, watched) /\
    (runWatcher w).1
    = (cleanup (wSignalErr w) (wBinaryExists w) (wapp watch)).1 /\
    effects (runWatcher w).2
    = first ++ watched
      ++ (cleanup (wSignalErr w) (wBinaryExists w) (wapp watch)).2.
Proof.
  intros Hmk. unfold runWatcher, runWatcherConfig. rewrite Hmk.
  destruct (detectProjectStructure (wFS w)) as [buildCmd buildTarget].
  cbn [fst snd].
  set (started := (scanFiles (wTree w) (newApp (defaultConfig buildCmd))).1).
  destruct (buildAndRun_cycle (wFirst w) started) as (app1 & tr1 & Hb & _).
  { subst started. rewrite scanFiles_visited. cbn [fst].
    now destruct (scan_rest (visited (config (newApp (defaultConfig buildCmd))) "."
                               (wTree w)).1
                    (newApp (defaultConfig buildCmd))) as (_ & _ & _ & ->). }
  { subst started. rewrite scanFiles_visited. cbn [fst].
    now destruct (scan_rest (visited (config (newApp (defaultConfig buildCmd))) "."
                               (wTree w)).1
                    (newApp (defaultConfig buildCmd))) as (_ & _ & -> & _). }
  rewrite Hb.
  destruct (watchFiles (wEvents w) app1) as [watch watched] eqn:Ew.
  destruct (cleanup (wSignalErr w) (wBinaryExists w) (wapp watch)) as [app2 cleaned] eqn:Ec.
  exists started, app1, tr1, watch, watched. cbn [fst snd].
  split; [reflexivity|]. split; [exact Hb|]. split; [exact Ew|].
  rewrite Ec. split; [reflexivity|].
  rewrite !effects_app, !effects_map. reflexivity.
Qed.

Lemma generations_cleanup sigErr binaryExists app :
  generations (cleanup sigErr binaryExists app).2 (process app) = Some None /\
  process (cleanup sigErr binaryExists app).1 = None.
Proof.
  unfold cleanup. destruct (generations_stopProcess sigErr app) as [Hg Hp].
  destruct (stopProcess sigErr app) as [app' tr]. simpl in *.
  rewrite generations_app, Hg. split; [|exact Hp]. now destruct binaryExists.
Qed.

Lemma runWatcher_mkdir_failed (w : World) (err : error) :
  wMkdirErr w = Some err ->
  effects (runWatcher w).2 = [] /\
  fileStates (runWatcher w).1 = ∅ /\
  process (runWatcher w).1 = None /\
  List.last (runWatcher w).2 OutBanner = OutMkdirFailed err.
Proof.
  intros H. unfold runWatcher. rewrite H.
  destruct (detectProjectStructure (wFS w)) as [buildCmd buildTarget]. auto.
Qed.

(** X17.  However a run of [runWatcher] goes, it returns with no process
    handle held, and over the whole run no two generations of the child
    process were alive together and none is alive at the end: the process
    of the initial cycle and of every rebuild is waited for. *)
Theorem runWatcher_leaves_no_process (w : World) :
  process (runWatcher w).1 = None /\
  generations (effects (runWatcher w).2) None = Some None.
Proof.
  destruct (wMkdirErr w) as [err|] eqn:Hmk.
  - destruct (runWatcher_mkdir_failed w err Hmk) as (-> & _ & -> & _). auto.
  - destruct (runWatcher_effects w Hmk)
      as (started & app1 & first & watch & watched & Hs & Hb & Hw & -> & ->).
    destruct (generations_cleanup (wSignalErr w) (wBinaryExists w) (wapp watch))
      as [Hg Hp].
    split; [exact Hp|].
    assert (Hstart : process started = None).
    { subst started. rewrite scanFiles_visited. simpl.
      now destruct (scan_rest (visited (runWatcherConfig (wFS w)) "." (wTree w)).1
                      (newApp (runWatcherConfig (wFS w)))) as (_ & -> & _). }
    apply generations_buildAndRun in Hb. rewrite Hstart in Hb. simpl in Hb.
    pose proof (generations_watchLoop (wEvents w) (mkWatch app1 false None) []
                  (process app1) eq_refl) as Hl.
    fold (watchFiles (wEvents w) app1) in Hl.
    rewrite Hw in Hl. simpl in Hl.
    rewrite generations_app, Hb. cbv beta iota.
    rewrite generations_app, Hl. exact Hg.
Qed.

Lemma buildAndRun_no_scan_failure o app app' tr :
  buildAndRun o app = Some (app', tr) -> forallb (fun e => negb (is_scan_failure e)) tr = true.
Proof.
  unfold buildAndRun, buildAndRunLocked. destruct (mutex app); [discriminate|]. simpl.
  destruct (building app).
  - intros H. injection H as _ <-. reflexivity.
  - assert (Hs : forallb (fun e => negb (is_scan_failure e))
                   (stopProcess (signalErr o)
                      (set_building (set_mutex app true) true)).2 = true).
    { unfold stopProcess. simpl. destruct (process app); [|reflexivity].
      now destruct (signalErr o). }
    destruct (stopProcess _ _) as [app1 stopped]. simpl in Hs.
    destruct (buildErr o) as [err|]; [|destruct (startRes o) as [err|pid]];
      intros H; injection H as _ <-; now rewrite !forallb_app, Hs.
Qed.

(** X18.  The error of the initial scan is never reported: in a run whose
    loop handles no tick, no scan failure is printed, even if the walk of
    the initial scan fails; the watcher starts with whatever that scan
    stored before it failed. *)
Theorem runWatcher_drops_initial_scan_error (w : World) :
  forallb (fun ev => negb (is_tick ev)) (wEvents w) = true ->
  List.filter is_scan_failure (effects (runWatcher w).2) = [].
Proof.
  intros Hev. destruct (wMkdirErr w) as [err|] eqn:Hmk.
  - now destruct (runWatcher_mkdir_failed w err Hmk) as (-> & _).
  - destruct (runWatcher_effects w Hmk)
      as (started & app1 & first & watch & watched & Hs & Hb & Hw & _ & ->).
    apply filter_none. intros e He. apply negb_true_iff.
    revert e He. apply forallb_forall. rewrite !forallb_app.
    rewrite (buildAndRun_no_scan_failure _ _ _ _ Hb). simpl.
    apply andb_true_iff. split.
    + assert (Hgen : forall evs wt tr,
                forallb (fun ev => negb (is_tick ev)) evs = true ->
                forallb (fun e => negb (is_scan_failure e)) tr = true ->
                forallb (fun e => negb (is_scan_failure e)) (watchLoop evs wt tr).2 = true).
      { induction evs as [|ev evs IH]; intros wt tr Hnt Htr; [exact Htr|].
        simpl in Hnt. apply andb_true_iff in Hnt as [Hn Hnt].
        simpl. destruct (handle ev wt) as [| |w' tr'] eqn:E; [exact Htr..|].
        apply IH; [exact Hnt|]. rewrite forallb_app, Htr. simpl.
        destruct ev as [|now root|o]; simpl in *; try discriminate.
        destruct (hasChanges wt).
        - destruct (buildAndRun o (wapp wt)) as [[a t]|] eqn:Eb; [|discriminate].
          injection E as _ <-. now apply (buildAndRun_no_scan_failure o (wapp wt) a).
        - now injection E as _ <-. }
      pose proof (Hgen (wEvents w) (mkWatch app1 false None) [] Hev eq_refl) as H.
      unfold watchFiles in Hw. now rewrite Hw in H.
    + unfold cleanup, stopProcess. destruct (process (wapp watch)); simpl.
      * destruct (wSignalErr w), (wBinaryExists w); reflexivity.
      * destruct (wBinaryExists w); reflexivity.
Qed.

Lemma failed_initial_scan_is_silent :
  forallb (fun ev => negb (is_tick ev))
    (wEvents (mkWorld fs_two_commands (inr "/p") None tree_pkg_unreadable first_call []
                None true)) = true /\
  (scanFiles tree_pkg_unreadable (newApp (runWatcherConfig fs_two_commands))).2
  = Some "lstat pkg: no such file or directory" /\
  List.filter is_scan_failure
    (effects (runWatcher (mkWorld fs_two_commands (inr "/p") None tree_pkg_unreadable
                            first_call [] None true)).2) = [].
Proof.
  split; [reflexivity|]. split; [reflexivity|].
  exact (runWatcher_drops_initial_scan_error
           (mkWorld fs_two_commands (inr "/p") None tree_pkg_unreadable first_call []
              None true) eq_refl).
Defined.

(** A whole run: the initial cycle, one rebuild after a detected change,
    and the shutdown, as the calls that act on processes and builds. *)
Example run_with_one_rebuild :
  List.filter is_process_call (effects (runWatcher world_one_rebuild).2)
  = [RunBuild "go build -o ./tmp/main ./cmd/web"; StartRun "./tmp/main";
     SignalTERM 11; Wait 11;
     RunBuild "go build -o ./tmp/main ./cmd/web"; StartRun "./tmp/main";
     SignalTERM 12; Wait 12] /\
  List.last (runWatcher world_one_rebuild).2 OutBanner = OutEffect (Remove "tmp/main").
Proof. split; reflexivity. Qed.

(** ** The command line *)

(** X19.  [main] does not panic on a non-empty [os.Args]; without
    arguments it does what it does for [init]; only the first argument is
    looked at; and any argument other than [init] and the help and version
    words prints an error and the help and never starts the watcher. *)
Theorem main_dispatch (watcher : list Output) :
  (forall osArgs, osArgs <> [] -> is_Some (main osArgs watcher)) /\
  (forall prog rest, main [prog] watcher = main (prog :: "init" :: rest) watcher) /\
  (forall prog arg rest rest',
     main (prog :: arg :: rest) watcher = main (prog :: arg :: rest') watcher) /\
  (forall prog arg rest,
     ~ In arg ["init"; "help"; "-h"; "--help"; "version"; "-v"; "--version"] ->
     main (prog :: arg :: rest) watcher
     = Some [OutBanner; OutUnknownCommand arg; OutHelp]).
Proof.
  split; [|split; [|split]].
  - intros [|prog [|arg rest]] H; [congruence|simpl; eauto|].
    unfold main, handleArgs. cbn [length Nat.eqb].
    repeat match goal with
           | |- context [if ?b then _ else _] => destruct b
           end; simpl; eauto.
  - reflexivity.
  - intros prog arg rest rest'. unfold main. now destruct rest, rest'.
  - intros prog arg rest Hn. unfold main, handleArgs.
    assert (Hlen : (length (prog :: arg :: rest) =? 1)%nat = false) by reflexivity.
    rewrite Hlen. simpl in Hn.
    assert (E : forall s, arg <> s -> String.eqb arg s = false).
    { intros s Hs. now apply String.eqb_neq. }
    simpl. rewrite !E by (intros ->; apply Hn; tauto). reflexivity.
Qed.

Lemma unknown_command_shows_help :
  ~ In "start" ["init"; "help"; "-h"; "--help"; "version"; "-v"; "--version"] /\
  main ["wind"; "start"; "--fast"] [OutStartingWatcher]
  = Some [OutBanner; OutUnknownCommand "start"; OutHelp].
Proof.
  assert (H : ~ In "start" ["init"; "help"; "-h"; "--help"; "version"; "-v"; "--version"]).
  { simpl. intros [E|[E|[E|[E|[E|[E|[E|[]]]]]]]]; discriminate. }
  split; [exact H|].
  exact (proj2 (proj2 (proj2 (main_dispatch [OutStartingWatcher])))
           "wind" "start" ["--fast"] H).
Defined.
